(** * Budget-Shifter: the numeric core of the simulation charts

    A shallow embedding of the data transformations of
    [src/components/Charts.tsx] and of the later chart component
    ([src/unnamed/part_000]): the rounding helper, the per-category
    aggregation, the delta/totals/treemap/stacked/waterfall builders and
    the axis formatter.

    Numbers.  A finite JavaScript [number] is the rational it denotes, in
    lowest terms ([Qc]); [NaN], the infinities and the sign of zero are
    outside the model.  The arithmetic of the source is read in two ways.
    In the main development every operation is the exact one; it carries
    the statements about order, sign and structure, and the numeric
    statements that leave room for the rounding error of a binary64
    operation.  Module [Binary64] holds the same functions with the
    result of every operation rounded to the nearest double, as the
    source computes them; it is used wherever the outcome depends on
    that error.  The decimal precision is an integer ([Z]).

    Objects.  The summaries pushed by the reduce are fresh objects held by
    one array only, so the array is a list of records and the assignment
    through the object returned by [find] updates that list element.  The
    objects built by [getStackedData], whose keys are category names, are
    finite maps from strings to their own properties. *)

From Stdlib Require Import Ascii QArith Qcanon Qround Qpower Lqa Floats.
From stdpp Require Import base decidable numbers list strings gmap fin_maps pretty sorting.

Local Open Scope Qc_scope.

(** ** JavaScript built-ins used by the source *)

Module JS.

(** [Math.round]: the integer closest to [x]; of two equally close
    integers the one towards +infinity. *)
Definition Math_round (x : Qc) : Qc := Qc_of_Z (Qfloor (this x + (1 # 2))%Q).

(** [Math.pow(10, p)] for an integer exponent. *)
Definition pow10 (p : Z) : Qc := Q2Qc ((10 # 1) ^ p).

Definition Math_abs (x : Qc) : Qc := if decide (x < 0) then - x else x.
Definition Math_min (x y : Qc) : Qc := if decide (x ≤ y) then x else y.
Definition Math_max (x y : Qc) : Qc := if decide (x ≤ y) then y else x.

(** [Array.prototype.sort(cmp)]: a stable sort; [a] stays before [b]
    unless [cmp a b > 0].  Written as the stable insertion sort. *)
Fixpoint sort_insert {A} (cmp : A → A → Qc) (x : A) (l : list A) : list A :=
  match l with
  | [] => [x]
  | y :: l' =>
      if decide (0 < cmp x y) then y :: sort_insert cmp x l'
      else x :: y :: l'
  end.

Definition Array_sort {A} (cmp : A → A → Qc) (l : list A) : list A :=
  foldr (sort_insert cmp) [] l.

(** [Array.prototype.find]: the first element that satisfies [P]. *)
Fixpoint Array_find {A} (P : A → bool) (l : list A) : option A :=
  match l with
  | [] => None
  | x :: l' => if P x then Some x else Array_find P l'
  end.

(** Assignment to the fields of the object returned by [find]: the
    array holds that same object, so its first element satisfying [P]
    is the one that changes. *)
Fixpoint assign_found {A} (P : A → bool) (f : A → A) (l : list A) : list A :=
  match l with
  | [] => []
  | x :: l' => if P x then f x :: l' else x :: assign_found P f l'
  end.

(** [obj[key] = value] on an object made by an object literal, for a
    [value] that is a string or a number: the own property [key] is
    created or overwritten.  The key [__proto__] is the exception: it is
    the accessor inherited from [Object.prototype], whose setter ignores
    a value that is not an object, so nothing is stored. *)
Definition Object_set {V} (key : string) (value : V) (obj : gmap string V)
  : gmap string V :=
  if decide (key = "__proto__") then obj else <[key := value]> obj.

Fixpoint zeros (n : nat) : string :=
  match n with O => "" | S n' => "0" +:+ zeros n' end.

(** Decimal digits of a positive rational: the least [m ≤ fuel] with
    [x * 10^m] an integer, together with that integer.  A rational
    with no finite expansion (not a value the source can hold) is cut
    after [fuel] fraction digits. *)
Fixpoint scale_to_integer (fuel : nat) (x : Q) (m : nat) : Z * nat :=
  match fuel with
  | O => (Qfloor x, m)
  | S fuel' =>
      if (Zpos (Qden (Qred x)) =? 1)%Z then (Qnum (Qred x), m)
      else scale_to_integer fuel' (x * (10 # 1))%Q (S m)
  end.

Fixpoint strip_zeros (fuel : nat) (s e : Z) : Z * Z :=
  match fuel with
  | O => (s, e)
  | S fuel' =>
      if (s mod 10 =? 0)%Z then strip_zeros fuel' (s / 10)%Z (e + 1)%Z
      else (s, e)
  end.

(** [Number::toString] (radix 10) on a positive value: with [s] the
    shortest digit string, [k] its length and [x = s * 10^(n-k)]. *)
Definition positive_toString (x : Qc) : string :=
  let '(s0, m) := scale_to_integer 30 (this x) 0 in
  let '(s, e) :=
    match m with
    | O => strip_zeros (String.length (pretty s0)) s0 0
    | _ => (s0, (- Z.of_nat m)%Z)
    end in
  let digits := pretty (Z.to_N s) in
  let k := String.length digits in
  let n := (e + Z.of_nat k)%Z in
  if decide (Z.of_nat k ≤ n ≤ 21)%Z then
    digits +:+ zeros (Z.to_nat n - k)
  else if decide (0 < n ≤ 21)%Z then
    String.substring 0 (Z.to_nat n) digits +:+ "." +:+
    String.substring (Z.to_nat n) (k - Z.to_nat n) digits
  else if decide (-6 < n ≤ 0)%Z then
    "0." +:+ zeros (Z.to_nat (- n)) +:+ digits
  else
    let exponent :=
      (if decide (0 ≤ n - 1)%Z then "+" else "-") +:+
      pretty (Z.abs_N (n - 1)) in
    if decide (k = 1%nat) then digits +:+ "e" +:+ exponent
    else String.substring 0 1 digits +:+ "." +:+ String.substring 1 (k - 1) digits
         +:+ "e" +:+ exponent.

Definition Number_toString (x : Qc) : string :=
  if decide (x = 0) then "0"
  else if decide (x < 0) then "-" +:+ positive_toString (- x)
  else positive_toString x.

(** The integer [n] for which [n / 10^f - x] is closest to zero, the
    larger one of two, for [x ≥ 0] (step 9a of [toFixed]). *)
Definition fixed_int (f : nat) (x : Qc) : Z :=
  Qfloor (this (x * pow10 (Z.of_nat f)) + (1 # 2))%Q.

(** Steps 9b-9c of [toFixed]: the digits of [n], left-padded with
    zeros to [f + 1] digits, with a point before the last [f]. *)
Definition fixed_digits (f : nat) (n : Z) : string :=
  let m := pretty (Z.to_N n) in
  match f with
  | O => m
  | _ =>
      let k := String.length m in
      let m := if decide (k ≤ f)%nat then zeros (f + 1 - k) +:+ m else m in
      let k := String.length m in
      String.substring 0 (k - f) m +:+ "." +:+ String.substring (k - f) f m
  end.

(** [Number.prototype.toFixed(f)]. *)
Definition toFixed (f : nat) (x : Qc) : string :=
  let s := if decide (x < 0) then "-" else "" in
  let x := if decide (x < 0) then - x else x in
  if decide (pow10 21 ≤ x) then s +:+ Number_toString x
  else s +:+ fixed_digits f (fixed_int f x).

End JS.

(** ** Data model *)

(** [BudgetLine] (from [../types]); the charts read these three fields. *)
Module BudgetLine.
Record t : Type := Build
  { category : string; originalAmount : Qc; adjustment : Qc }.
End BudgetLine.

(** The element type of [aggregatedData]. *)
Module Summary.
Record t : Type := Build
  { name : string; original : Qc; final : Qc; adjustment : Qc }.
End Summary.

Global Instance BudgetLine_eq_dec : EqDecision BudgetLine.t.
Proof. solve_decision. Defined.
Global Instance Summary_eq_dec : EqDecision Summary.t.
Proof. solve_decision. Defined.

(** Modelled from the spec: the colour theme ([ThemePalette] is declared
    in [../types]), the named colours primary, highRisk, lowRisk,
    mediumRisk and text. *)
Record ThemePalette : Type :=
  { primary : string; highRisk : string; lowRisk : string;
    mediumRisk : string; text : string }.

(** ** Helpers shared by both chart components

    Here with exact arithmetic; [Binary64.round], [Binary64.reducer] and
    [Binary64.formatValue] are the same functions on doubles. *)

Section Helpers.
Variable decimalPrecision : Z.
Variable showInThousands : bool.

(** [const round = (val) => { const factor = Math.pow(10, decimalPrecision);
      return Math.round(val * factor) / factor; }] *)
Definition round (val : Qc) : Qc :=
  let factor := JS.pow10 decimalPrecision in
  JS.Math_round (val * factor) / factor.

Definition formatValue (val : Qc) : string :=
  if decide (val = 0) then "0"
  else if showInThousands then JS.toFixed 1 (val / Qc_of_Z 1000) +:+ "k"
  else if decide (Qc_of_Z 1000000 ≤ JS.Math_abs val)
    then JS.toFixed 1 (val / Qc_of_Z 1000000) +:+ "M"
  else if decide (Qc_of_Z 1000 ≤ JS.Math_abs val)
    then JS.toFixed 0 (val / Qc_of_Z 1000) +:+ "k"
  else JS.Number_toString val.

(** The callback of [data.reduce(..., [])]. *)
Definition reducer (acc : list Summary.t) (curr : BudgetLine.t)
  : list Summary.t :=
  let same := λ item : Summary.t,
    bool_decide (Summary.name item = BudgetLine.category curr) in
  let lineFinal :=
    round (BudgetLine.originalAmount curr + BudgetLine.adjustment curr) in
  match JS.Array_find same acc with
  | Some _ =>
      JS.assign_found same
        (λ existing,
           {| Summary.name := Summary.name existing;
              Summary.original :=
                round (Summary.original existing + BudgetLine.originalAmount curr);
              Summary.final := round (Summary.final existing + lineFinal);
              Summary.adjustment :=
                round (Summary.adjustment existing + BudgetLine.adjustment curr) |})
        acc
  | None =>
      acc ++ [ {| Summary.name := BudgetLine.category curr;
                  Summary.original := round (BudgetLine.originalAmount curr);
                  Summary.final := lineFinal;
                  Summary.adjustment := round (BudgetLine.adjustment curr) |} ]
  end.

Definition aggregate (data : list BudgetLine.t) : list Summary.t :=
  fold_left reducer data [].
End Helpers.

(** ** [src/components/Charts.tsx] *)

Module Charts.
Section Component.
Variable data : list BudgetLine.t.
Variable decimalPrecision : Z.

Definition aggregatedData : list Summary.t := aggregate decimalPrecision data.

(** [[...aggregatedData].filter(d => Math.abs(d.adjustment) > 0)
      .sort((a, b) => b.adjustment - a.adjustment)] *)
Definition deltaData_of (aggregated : list Summary.t) : list Summary.t :=
  JS.Array_sort (λ a b, Summary.adjustment b - Summary.adjustment a)
    (filter (λ d, 0 < JS.Math_abs (Summary.adjustment d)) aggregated).

(** [[...aggregatedData].sort((a, b) => b.final - a.final)] *)
Definition totalData_of (aggregated : list Summary.t) : list Summary.t :=
  JS.Array_sort (λ a b, Summary.final b - Summary.final a) aggregated.

Definition deltaData : list Summary.t := deltaData_of aggregatedData.
Definition totalData : list Summary.t := totalData_of aggregatedData.
End Component.

(** The view switch, [useState<'totals' | 'deltas'>]. *)
Inductive ViewMode : Type := totals | deltas.

(** An element of the [data] prop of the delta chart: a summary, or the
    object [{name: 'Geen wijzigingen', adjustment: 0}]. *)
Inductive DeltaDatum : Type :=
| Datum (d : Summary.t)
| Placeholder (name : string) (adjustment : Qc).

Section Rendering.
Variable theme : ThemePalette.

(** [data={deltaData.length > 0 ? deltaData : [{name: 'Geen wijzigingen',
    adjustment: 0}]}] *)
Definition deltaChartData_of (deltaData : list Summary.t) : list DeltaDatum :=
  if decide (0 < length deltaData)%nat then Datum <$> deltaData
  else [Placeholder "Geen wijzigingen" 0].

(** The [fill] of the cells:
    [deltaData.map(entry => entry.adjustment > 0 ? theme.primary : theme.highRisk)]. *)
Definition deltaCellFills_of (deltaData : list Summary.t) : list string :=
  (λ entry, if decide (0 < Summary.adjustment entry) then primary theme
            else highRisk theme) <$> deltaData.

(** [viewMode === 'deltas' && deltaData.length === 0]: the overlay
    "Nog geen budgetverschuivingen gedaan." is rendered. *)
Definition noShiftsOverlay_of (viewMode : ViewMode) (deltaData : list Summary.t) : bool :=
  match viewMode with
  | deltas => bool_decide (length deltaData = 0%nat)
  | totals => false
  end.
End Rendering.
End Charts.

(** ** The chart component with treemap, stacked and waterfall views
       ([src/unnamed/part_000]) *)

Module ChartViews.

(** An element of [treemapData]: the summary spread into a new object
    together with [size]. *)
Record TreemapNode : Type :=
  { node : Summary.t; size : Qc }.

(** A property value of the objects built by [getStackedData]. *)
Inductive JSValue : Type :=
| VStr (s : string)
| VNum (n : Qc).

(** The elements of the array built by [getWaterfallData]: objects
    with [type: 'total'] and objects with [type: 'step']. *)
Inductive WaterfallPoint : Type :=
| Total (name : string) (uv : Qc) (fill : string)
| Step (name : string) (range : Qc * Qc) (adjustment : Qc) (fill : string).

Section Component.
Variable data : list BudgetLine.t.
Variable theme : ThemePalette.
Variable decimalPrecision : Z.
(** [newInvestment?: number], destructured with the default [0]. *)
Variable newInvestment : option Qc.

Definition investment : Qc := default 0 newInvestment.

(** [if (newInvestment && newInvestment > 0) aggregatedData.push(...)] *)
Definition inject_investment (aggregated : list Summary.t) : list Summary.t :=
  if bool_decide (investment ≠ 0) && bool_decide (0 < investment) then
    aggregated ++
      [ {| Summary.name := "Nieuwe Investering";
           Summary.original := 0;
           Summary.final := round decimalPrecision investment;
           Summary.adjustment := round decimalPrecision investment |} ]
  else aggregated.

(** The reduce, the injection and
    [aggregatedData.sort((a, b) => b.final - a.final)]. *)
Definition aggregatedData : list Summary.t :=
  JS.Array_sort (λ a b, Summary.final b - Summary.final a)
    (inject_investment (aggregate decimalPrecision data)).

Definition treemapData_of (aggregated : list Summary.t) : list TreemapNode :=
  (λ d, {| node := d; size := Summary.final d |}) <$>
    filter (λ d, 0 < Summary.final d) aggregated.

Definition treemapData : list TreemapNode := treemapData_of aggregatedData.

(** [getStackedData]: the pair stands for the two-element array
    [[originalBar, finalBar]]. *)
Definition getStackedData_of (aggregated : list Summary.t)
  : gmap string JSValue * gmap string JSValue :=
  fold_left
    (λ '(originalBar, finalBar) item,
       (if decide (0 < Summary.original item)
        then JS.Object_set (Summary.name item) (VNum (Summary.original item))
               originalBar
        else originalBar,
        if decide (0 < Summary.final item)
        then JS.Object_set (Summary.name item) (VNum (Summary.final item))
               finalBar
        else finalBar))
    aggregated
    ({["name" := VStr "Origineel Budget"]}, {["name" := VStr "Nieuw Budget"]}).

Definition getStackedData := getStackedData_of aggregatedData.

(** The body of [steps.forEach], on the pair [(points, runningTotal)]. *)
Definition waterfall_step (st : list WaterfallPoint * Qc) (step : Summary.t)
  : list WaterfallPoint * Qc :=
  let '(points, runningTotal) := st in
  let prevTotal := runningTotal in
  let runningTotal :=
    round decimalPrecision (runningTotal + Summary.adjustment step) in
  let range :=
    (JS.Math_min prevTotal runningTotal, JS.Math_max prevTotal runningTotal) in
  let fillColor :=
    if decide (0 < Summary.adjustment step) then highRisk theme
    else lowRisk theme in
  let fillColor :=
    if decide (Summary.name step = "Nieuwe Investering") then text theme
    else fillColor in
  (points ++ [Step (Summary.name step) range (Summary.adjustment step) fillColor],
   runningTotal).

Definition totalOriginal_of (aggregated : list Summary.t) : Qc :=
  round decimalPrecision
    (fold_left (λ acc cur, acc + Summary.original cur) aggregated 0).

Definition steps_of (aggregated : list Summary.t) : list Summary.t :=
  JS.Array_sort (λ a b, Summary.adjustment b - Summary.adjustment a)
    (filter (λ d, Summary.adjustment d ≠ 0) aggregated).

Definition getWaterfallData_of (aggregated : list Summary.t)
  : list WaterfallPoint :=
  let totalOriginal := totalOriginal_of aggregated in
  let points := [Total "Start (Origineel)" totalOriginal "#94a3b8"] in
  let '(points, runningTotal) :=
    fold_left waterfall_step (steps_of aggregated) (points, totalOriginal) in
  points ++ [Total "Eind (Nieuw)" runningTotal (primary theme)].

Definition getWaterfallData := getWaterfallData_of aggregatedData.

(** The colour logic of [TreemapContent], for the node called [name]. *)
Definition TreemapContent_fillColor_of (aggregated : list Summary.t)
    (name : string) : string :=
  let item :=
    JS.Array_find (λ d, bool_decide (Summary.name d = name)) aggregated in
  let fillColor := primary theme in
  if decide (name = "Nieuwe Investering") then text theme
  else match item with
       | Some item =>
           if decide (0 < Summary.adjustment item) then highRisk theme
           else if decide (Summary.adjustment item < 0) then lowRisk theme
           else fillColor
       | None => fillColor
       end.

Definition TreemapContent_fillColor := TreemapContent_fillColor_of aggregatedData.

(** The summary that [CustomTooltip] shows for a treemap node:
    [aggregatedData.find(d => d.name === dataItem.name)]. *)
Definition tooltipItem_of (aggregated : list Summary.t) (name : string)
  : option Summary.t :=
  JS.Array_find (λ d, bool_decide (Summary.name d = name)) aggregated.

(** The palette of [getCategoryColor]. *)
Definition palette : list string :=
  [ primary theme; mediumRisk theme; lowRisk theme; highRisk theme;
    "#64748b"; "#94a3b8"; "#334155"; "#475569" ].

(** [getCategoryColor(name, index)], [index] an array index; [None] is
    [undefined]. *)
Definition getCategoryColor (name : string) (index : nat) : option string :=
  if decide (name = "Nieuwe Investering") then Some (text theme)
  else palette !! (index mod length palette)%nat.

(** The colours of the stacked bars:
    [aggregatedData.map((cat, index) => getCategoryColor(cat.name, index))]. *)
Definition stackedBarFills_of (aggregated : list Summary.t) : list (option string) :=
  imap (λ index cat, getCategoryColor (Summary.name cat) index) aggregated.

End Component.
End ChartViews.

(** ** The same functions on binary64 numbers

    A [number] of the source is a double.  Each arithmetic operation
    returns the double closest to the exact result, the one with the even
    significand of two equally close ones; [Math.round], [Math.abs] and
    the comparisons are exact.  Results beyond the largest double
    (infinities) are outside the model. *)

Module Binary64.

(** The integer closest to [n / d], for [0 ≤ n] and [0 < d]; of two
    equally close integers the even one. *)
Definition nearest_even (n d : Z) : Z :=
  let q := (n / d)%Z in
  match (2 * (n mod d) ?= d)%Z with
  | Lt => q
  | Gt => (q + 1)%Z
  | Eq => if Z.even q then q else (q + 1)%Z
  end.

(** [2^e ≤ n / d], for positive [n] and [d]. *)
Definition above_pow2 (n d e : Z) : bool :=
  if (0 <=? e)%Z then (d * 2 ^ e <=? n)%Z else (d <=? n * 2 ^ (- e))%Z.

(** The double closest to the positive rational [n / d]: with
    [2^e ≤ n / d < 2^(e+1)], the closest multiple of [2^(e-52)] (a
    significand of 53 bits), and of [2^-1074] below the normal range. *)
Definition fl_pos (n d : Z) : Qc :=
  let e0 := (Z.log2 n - Z.log2 d)%Z in
  let e := if above_pow2 n d e0 then e0 else (e0 - 1)%Z in
  let s := Z.max (e - 52) (-1074) in
  if (0 <=? s)%Z then Qc_of_Z (nearest_even n (d * 2 ^ s) * 2 ^ s)
  else Q2Qc (nearest_even (n * 2 ^ (- s)) d # Z.to_pos (2 ^ (- s))).

(** Rounding of an exact result to binary64. *)
Definition fl (x : Qc) : Qc :=
  match Qnum (this x) with
  | Z0 => 0
  | Zpos n => fl_pos (Zpos n) (Zpos (Qden (this x)))
  | Zneg n => - fl_pos (Zpos n) (Zpos (Qden (this x)))
  end.

(** The value of the decimal literal [n / d] ([d] a power of ten). *)
Definition number (n : Z) (d : positive) : Qc := fl (Q2Qc (n # d)).

(** The rational that a primitive binary64 float of the prover denotes,
    and the float of a short decimal literal; they serve to compare [fl]
    with the prover's own binary64 operations. *)
Definition float_value (f : float) : option Qc :=
  match Prim2SF f with
  | S754_zero _ => Some 0
  | S754_finite s m e =>
      let v := Q2Qc (inject_Z (Zpos m) * (2 # 1) ^ e) in
      Some (if s then - v else v)
  | _ => None
  end.

Definition float_literal (n d : Z) : float :=
  (PrimFloat.of_uint63 (Uint63.of_Z n) / PrimFloat.of_uint63 (Uint63.of_Z d))%float.

(** [Math.pow(10, p)] for an integer exponent. *)
Definition pow10 (p : Z) : Qc := fl (JS.pow10 p).

Section Helpers.
Variable decimalPrecision : Z.

(** [const round = (val) => { const factor = Math.pow(10, decimalPrecision);
      return Math.round(val * factor) / factor; }] *)
Definition round (val : Qc) : Qc :=
  let factor := pow10 decimalPrecision in
  fl (JS.Math_round (fl (val * factor)) / factor).

(** The callback of [data.reduce(..., [])]. *)
Definition reducer (acc : list Summary.t) (curr : BudgetLine.t)
  : list Summary.t :=
  let same := λ item : Summary.t,
    bool_decide (Summary.name item = BudgetLine.category curr) in
  let lineFinal :=
    round (fl (BudgetLine.originalAmount curr + BudgetLine.adjustment curr)) in
  match JS.Array_find same acc with
  | Some _ =>
      JS.assign_found same
        (λ existing,
           {| Summary.name := Summary.name existing;
              Summary.original :=
                round (fl (Summary.original existing
                           + BudgetLine.originalAmount curr));
              Summary.final := round (fl (Summary.final existing + lineFinal));
              Summary.adjustment :=
                round (fl (Summary.adjustment existing
                           + BudgetLine.adjustment curr)) |})
        acc
  | None =>
      acc ++ [ {| Summary.name := BudgetLine.category curr;
                  Summary.original := round (BudgetLine.originalAmount curr);
                  Summary.final := lineFinal;
                  Summary.adjustment := round (BudgetLine.adjustment curr) |} ]
  end.

Definition aggregate (data : list BudgetLine.t) : list Summary.t :=
  fold_left reducer data [].

(** The running total of [getWaterfallData] after [steps.forEach]:
    [runningTotal = round(runningTotal + step.adjustment)] for every
    step in turn. *)
Definition runningTotal (totalOriginal : Qc) (steps : list Summary.t) : Qc :=
  fold_left (λ total step, round (fl (total + Summary.adjustment step)))
    steps totalOriginal.
End Helpers.

(** The least [n], from [n] on, with [x < 10^n]. *)
Fixpoint exponent_from (fuel : nat) (x : Qc) (n : Z) : Z :=
  match fuel with
  | O => n
  | S fuel' =>
      if decide (x < JS.pow10 n) then n else exponent_from fuel' x (n + 1)
  end.

(** The [n] with [10^(n-1) ≤ x < 10^n], for a positive [x]: searched
    upwards from an estimate that the binary exponent gives. *)
Definition decimal_exponent (x : Qc) : Z :=
  let e0 := (Z.log2 (Qnum (this x)) - Z.log2 (Zpos (Qden (this x))))%Z in
  exponent_from 4 x (e0 * 30103 / 100000 - 1).

Definition decimal (s e : Z) : Qc := Qc_of_Z s * JS.pow10 e.

(** The digits of [Number::toString]: the least [k], from [k] on, for
    which some [s * 10^(n-k)] is read back as [x], with that [s]; of two
    such [s] the one whose decimal is closer to [x].  Seventeen digits
    identify a double. *)
Fixpoint shortest_from (fuel : nat) (x : Qc) (n k : Z) : Z * Z :=
  let t := x * JS.pow10 (k - n) in
  let near := Qfloor (this t + (1 # 2))%Q in
  match fuel with
  | O => (near, (n - k)%Z)
  | S fuel' =>
      let lo := Qfloor (this t) in
      let far := if (near =? lo)%Z then (lo + 1)%Z else lo in
      if decide (fl (decimal near (n - k)) = x) then (near, (n - k)%Z)
      else if decide (fl (decimal far (n - k)) = x) then (far, (n - k)%Z)
      else shortest_from fuel' x n (k + 1)
  end.

(** [Number::toString] (radix 10) on a positive double. *)
Definition positive_toString (x : Qc) : string :=
  let '(s0, e0) := shortest_from 17 x (decimal_exponent x) 1 in
  let '(s, e) := JS.strip_zeros 20 s0 e0 in
  let digits := pretty (Z.to_N s) in
  let k := String.length digits in
  let n := (e + Z.of_nat k)%Z in
  if decide (Z.of_nat k ≤ n ≤ 21)%Z then
    digits +:+ JS.zeros (Z.to_nat n - k)
  else if decide (0 < n ≤ 21)%Z then
    String.substring 0 (Z.to_nat n) digits +:+ "." +:+
    String.substring (Z.to_nat n) (k - Z.to_nat n) digits
  else if decide (-6 < n ≤ 0)%Z then
    "0." +:+ JS.zeros (Z.to_nat (- n)) +:+ digits
  else
    let exponent :=
      (if decide (0 ≤ n - 1)%Z then "+" else "-") +:+
      pretty (Z.abs_N (n - 1)) in
    if decide (k = 1%nat) then digits +:+ "e" +:+ exponent
    else String.substring 0 1 digits +:+ "." +:+ String.substring 1 (k - 1) digits
         +:+ "e" +:+ exponent.

Definition Number_toString (x : Qc) : string :=
  if decide (x = 0) then "0"
  else if decide (x < 0) then "-" +:+ positive_toString (- x)
  else positive_toString x.

(** [Number.prototype.toFixed(f)]: the digits are those of the exact
    value of the double. *)
Definition toFixed (f : nat) (x : Qc) : string :=
  let s := if decide (x < 0) then "-" else "" in
  let x := if decide (x < 0) then - x else x in
  if decide (JS.pow10 21 ≤ x) then s +:+ Number_toString x
  else s +:+ JS.fixed_digits f (JS.fixed_int f x).

Definition formatValue (showInThousands : bool) (val : Qc) : string :=
  if decide (val = 0) then "0"
  else if showInThousands then toFixed 1 (fl (val / Qc_of_Z 1000)) +:+ "k"
  else if decide (Qc_of_Z 1000000 ≤ JS.Math_abs val)
    then toFixed 1 (fl (val / Qc_of_Z 1000000)) +:+ "M"
  else if decide (Qc_of_Z 1000 ≤ JS.Math_abs val)
    then toFixed 0 (fl (val / Qc_of_Z 1000)) +:+ "k"
  else Number_toString val.

End Binary64.

(** ** The aggregation as the specification words it *)

Definition sum (l : list Qc) : Qc := foldr Qcplus 0 l.

(** The categories of the lines, each once, in first-seen order. *)
Fixpoint first_seen (l : list string) : list string :=
  match l with
  | [] => []
  | c :: l' => c :: filter (λ c', c' ≠ c) (first_seen l')
  end.

Definition lines_of (c : string) (data : list BudgetLine.t) : list BudgetLine.t :=
  filter (λ x, BudgetLine.category x = c) data.

Section AggregateSpec.
Variable p : Z.

Definition line_original (x : BudgetLine.t) : Qc :=
  round p (BudgetLine.originalAmount x).
Definition line_final (x : BudgetLine.t) : Qc :=
  round p (BudgetLine.originalAmount x + BudgetLine.adjustment x).
Definition line_adjustment (x : BudgetLine.t) : Qc :=
  round p (BudgetLine.adjustment x).

(** Every line of category [c] rounded once, the rounded values summed
    exactly. *)
Definition summary_of (data : list BudgetLine.t) (c : string) : Summary.t :=
  {| Summary.name := c;
     Summary.original := sum (line_original <$> lines_of c data);
     Summary.final := sum (line_final <$> lines_of c data);
     Summary.adjustment := sum (line_adjustment <$> lines_of c data) |}.

Definition aggregate_spec (data : list BudgetLine.t) : list Summary.t :=
  summary_of data <$> first_seen (BudgetLine.category <$> data).
End AggregateSpec.

(** ** Notions used to state the properties *)


(** [v] is an integer multiple of the unit. *)
Definition on_grid (p : Z) (v : Qc) : Prop :=
  ∃ m : Z, v = Qc_of_Z m / JS.pow10 p.




(** Descending by [key]: the order that the comparator
    [(a, b) => key b - key a] asks for. *)
Definition descending {A} (key : A → Qc) (a b : A) : Prop := key b ≤ key a.

(** One row of [getStackedData], taken by itself: the summaries are
    visited in order and [val] is stored under the name when positive. *)
Definition stacked_row (val : Summary.t → Qc) (aggregated : list Summary.t)
    (row : gmap string ChartViews.JSValue) : gmap string ChartViews.JSValue :=
  fold_left
    (λ row item,
       if decide (0 < val item)
       then JS.Object_set (Summary.name item) (ChartViews.VNum (val item)) row
       else row)
    aggregated row.

(** Every number stored in a row is strictly positive. *)
Definition numbers_positive (row : gmap string ChartViews.JSValue) : Prop :=
  ∀ k v, row !! k = Some (ChartViews.VNum v) → 0 < v.

(** The running total of the waterfall after the given steps. *)
Definition running_total (p : Z) (start : Qc) (steps : list Summary.t) : Qc :=
  fold_left (λ total step, round p (total + Summary.adjustment step)) steps start.

(** The colour of a waterfall step. *)
Definition step_fill (theme : ThemePalette) (step : Summary.t) : string :=
  if decide (Summary.name step = "Nieuwe Investering") then text theme
  else if decide (0 < Summary.adjustment step) then highRisk theme
  else lowRisk theme.

(** The waterfall point of the [i]-th step [step] of [steps]: its bar
    spans the running totals before and after the step. *)
Definition waterfall_point (theme : ThemePalette) (p : Z) (start : Qc)
    (steps : list Summary.t) (i : nat) (step : Summary.t)
  : ChartViews.WaterfallPoint :=
  let prevTotal := running_total p start (take i steps) in
  let newTotal := running_total p start (take (S i) steps) in
  ChartViews.Step (Summary.name step)
    (JS.Math_min prevTotal newTotal, JS.Math_max prevTotal newTotal)
    (Summary.adjustment step) (step_fill theme step).

(** [c] occurs in [s]. *)
Fixpoint occurs (c : ascii) (s : string) : bool :=
  match s with
  | EmptyString => false
  | String a s' => bool_decide (a = c) || occurs c s'
  end.

(** ** Example data *)

Definition line_A1 : BudgetLine.t := BudgetLine.Build "A" (Qc_of_Z 100) (Qc_of_Z 10).
Definition line_A2 : BudgetLine.t := BudgetLine.Build "A" (Qc_of_Z 50) (Qc_of_Z (-5)).
Definition line_B : BudgetLine.t := BudgetLine.Build "B" (Qc_of_Z 200) (Qc_of_Z 0).
Definition example_lines : list BudgetLine.t := [line_A1; line_A2; line_B].

Definition summary_A : Summary.t :=
  Summary.Build "A" (Qc_of_Z 150) (Qc_of_Z 155) (Qc_of_Z 5).
Definition summary_B : Summary.t :=
  Summary.Build "B" (Qc_of_Z 200) (Qc_of_Z 200) (Qc_of_Z 0).
Definition example_summaries : list Summary.t := [summary_A; summary_B].



(** A line whose category carries the name of the synthetic entry. *)
Definition clash_lines : list BudgetLine.t :=
  [BudgetLine.Build "Nieuwe Investering" (Qc_of_Z 100) (Qc_of_Z 0)].

(** Sums, products and quotients of the examples, computed by [Binary64]
    and by primitive floats. *)
Definition float_value_checks : bool :=
  let lit := Binary64.float_literal in
  let num := λ n d, Binary64.number n (Z.to_pos d) in
  let val := Binary64.float_value in
  forallb id
    [ bool_decide (val (lit 1%Z 10%Z) = Some (num 1%Z 10%Z));
      bool_decide (val (lit 35%Z 100%Z) = Some (num 35%Z 100%Z));
      bool_decide (val (lit 1005%Z 1000%Z) = Some (num 1005%Z 1000%Z));
      bool_decide (val (lit 1%Z 10%Z + lit 2%Z 10%Z)%float
                   = Some (Binary64.fl (num 1%Z 10%Z + num 2%Z 10%Z)));
      bool_decide (val (lit 3%Z 10%Z + lit 35%Z 100%Z)%float
                   = Some (Binary64.fl (num 3%Z 10%Z + num 35%Z 100%Z)));
      bool_decide (val (lit 4%Z 10%Z + lit 25%Z 100%Z)%float
                   = Some (Binary64.fl (num 4%Z 10%Z + num 25%Z 100%Z)));
      bool_decide (val (lit 65%Z 100%Z * lit 10%Z 1%Z)%float
                   = Some (Binary64.fl (num 65%Z 100%Z * Qc_of_Z 10)));
      bool_decide (val ((lit 3%Z 10%Z + lit 35%Z 100%Z) * lit 10%Z 1%Z)%float
                   = Some (Binary64.fl (Binary64.fl (num 3%Z 10%Z + num 35%Z 100%Z)
                                        * Qc_of_Z 10)));
      bool_decide (val (lit 1005%Z 1000%Z * lit 100%Z 1%Z)%float
                   = Some (Binary64.fl (num 1005%Z 1000%Z * Qc_of_Z 100)));
      bool_decide (val (lit 15%Z 100%Z * lit 10%Z 1%Z)%float
                   = Some (Binary64.fl (num 15%Z 100%Z * Qc_of_Z 10)));
      bool_decide (val (lit 7%Z 1%Z / lit 10%Z 1%Z)%float
                   = Some (Binary64.fl (Qc_of_Z 7 / Qc_of_Z 10)));
      bool_decide (val (lit 150%Z 1%Z / lit 1000%Z 1%Z)%float
                   = Some (Binary64.fl (Qc_of_Z 150 / Qc_of_Z 1000)));
      bool_decide (val (lit 1450000%Z 1%Z / lit 1000000%Z 1%Z)%float
                   = Some (Binary64.fl (Qc_of_Z 1450000 / Qc_of_Z 1000000))) ].

(** Two lines of one category, 0.25 and 0.35, and two summaries with
    these adjustments. *)
Definition tie_line_25 : BudgetLine.t :=
  BudgetLine.Build "A" (Binary64.number 25 100) 0.
Definition tie_line_35 : BudgetLine.t :=
  BudgetLine.Build "A" (Binary64.number 35 100) 0.

(** A category that carries the key of the row label, one that carries
    the key of the prototype accessor, and one that is new in the
    budget (nothing originally, 40 finally). *)
Definition label_clash_summary : Summary.t :=
  Summary.Build "name" 0 (Qc_of_Z 5) (Qc_of_Z 5).
Definition proto_summary : Summary.t :=
  Summary.Build "__proto__" (Qc_of_Z 5) (Qc_of_Z 5) 0.
Definition zero_original_summary : Summary.t :=
  Summary.Build "C" 0 (Qc_of_Z 40) (Qc_of_Z 40).
Definition zero_original_summaries : list Summary.t :=
  [summary_A; zero_original_summary].

Definition example_theme : ThemePalette :=
  {| primary := "#2563eb"; highRisk := "#dc2626"; lowRisk := "#16a34a";
     mediumRisk := "#f59e0b"; text := "#334155" |}.

(** ** Rationals: from [Qc] to [Q] and back *)

Lemma this_plus (x y : Qc) : (this (x + y) == this x + this y)%Q.
Proof. apply Qred_correct. Qed.

Lemma this_mult (x y : Qc) : (this (x * y) == this x * this y)%Q.
Proof. apply Qred_correct. Qed.

Lemma this_opp (x : Qc) : (this (- x) == - this x)%Q.
Proof. apply Qred_correct. Qed.

Lemma this_minus (x y : Qc) : (this (x - y) == this x - this y)%Q.
Proof. unfold Qcminus. rewrite this_plus, this_opp. reflexivity. Qed.

Lemma this_inv (x : Qc) : (this (/ x) == / this x)%Q.
Proof. apply Qred_correct. Qed.

Lemma this_div (x y : Qc) : (this (x / y) == this x / this y)%Q.
Proof. unfold Qcdiv. rewrite this_mult, this_inv. reflexivity. Qed.

Lemma this_Q2Qc (a : Q) : (this (Q2Qc a) == a)%Q.
Proof. apply Qred_correct. Qed.

Lemma this_of_Z (n : Z) : this (Qc_of_Z n) = inject_Z n.
Proof. reflexivity. Qed.

Lemma Qc_of_Z_plus (a b : Z) : Qc_of_Z (a + b) = Qc_of_Z a + Qc_of_Z b.
Proof.
  apply Qc_is_canon. rewrite this_plus, !this_of_Z, inject_Z_plus. reflexivity.
Qed.

Lemma Qc_of_Z_le (a b : Z) : (a ≤ b)%Z → Qc_of_Z a ≤ Qc_of_Z b.
Proof. intros H. unfold Qcle. rewrite !this_of_Z. by rewrite <- Zle_Qle. Qed.

Lemma Qc_of_Z_0 : Qc_of_Z 0 = 0.
Proof. apply Qc_is_canon. reflexivity. Qed.

(** ** Linear arithmetic on [Qc], through [Q] *)

Lemma Qc_eq_Qeq (x y : Qc) : x = y → (this x == this y)%Q.
Proof. intros ->. reflexivity. Qed.

Ltac qc_lra :=
  repeat match goal with
         | H : @eq Qc _ _ |- _ => apply Qc_eq_Qeq in H
         | |- @eq Qc _ _ => apply Qc_is_canon
         end;
  unfold Qcle, Qclt in *;
  repeat (rewrite ?this_plus, ?this_mult, ?this_opp, ?this_minus,
            ?this_div, ?this_inv, ?this_Q2Qc, ?this_of_Z in * );
  lra.

(** ** Floor and [Math.round] *)

Lemma Qfloor_unique (x : Q) (n : Z) :
  (inject_Z n <= x)%Q → (x < inject_Z (n + 1))%Q → Qfloor x = n.
Proof.
  intros Hle Hlt.
  pose proof (Qfloor_le x) as Hf1. pose proof (Qlt_floor x) as Hf2.
  assert (n < Qfloor x + 1)%Z
    by (rewrite Zlt_Qlt; eapply Qle_lt_trans; eassumption).
  assert (Qfloor x < n + 1)%Z
    by (rewrite Zlt_Qlt; eapply Qle_lt_trans; eassumption).
  lia.
Qed.

Lemma Qfloor_plus_Z (m : Z) (x : Q) : Qfloor (inject_Z m + x) = (m + Qfloor x)%Z.
Proof.
  apply Qfloor_unique.
  - rewrite inject_Z_plus. pose proof (Qfloor_le x). lra.
  - rewrite <- Z.add_assoc, inject_Z_plus. pose proof (Qlt_floor x). lra.
Qed.

Lemma Math_round_plus_Z (m : Z) (x : Qc) :
  JS.Math_round (Qc_of_Z m + x) = Qc_of_Z m + JS.Math_round x.
Proof.
  unfold JS.Math_round. rewrite <- Qc_of_Z_plus. f_equal.
  rewrite <- Qfloor_plus_Z. apply Qfloor_comp.
  rewrite this_plus, this_of_Z. ring.
Qed.

Lemma Math_round_Z (m : Z) : JS.Math_round (Qc_of_Z m) = Qc_of_Z m.
Proof.
  unfold JS.Math_round. f_equal. rewrite this_of_Z. apply Qfloor_unique.
  - lra.
  - rewrite inject_Z_plus. change (inject_Z 1) with 1%Q. lra.
Qed.

Lemma Qc_half : (/ 2 : Qc) = Q2Qc (1 # 2).
Proof. apply Qc_is_canon. reflexivity. Qed.

(** [Math.round x] is the nearest integer, the upper one on a tie. *)
Lemma Math_round_nearest (x : Qc) :
  ∃ n : Z, JS.Math_round x = Qc_of_Z n ∧
           x - / 2 < Qc_of_Z n ∧ Qc_of_Z n ≤ x + / 2.
Proof.
  exists (Qfloor (this x + (1 # 2))%Q). split; [reflexivity|].
  pose proof (Qfloor_le (this x + (1 # 2))%Q) as H1.
  pose proof (Qlt_floor (this x + (1 # 2))%Q) as H2.
  rewrite inject_Z_plus in H2. change (inject_Z 1) with 1%Q in H2.
  rewrite Qc_half.
  unfold Qclt, Qcle. rewrite this_minus, this_plus, this_Q2Qc, this_of_Z.
  split; lra.
Qed.


Lemma Math_abs_pos (x : Qc) : 0 < JS.Math_abs x ↔ x ≠ 0.
Proof.
  unfold JS.Math_abs. destruct (decide (x < 0)) as [Hneg|Hpos].
  - split; [intros _ ->; by apply Qclt_not_eq in Hneg|intros _; qc_lra].
  - apply Qcnot_lt_le in Hpos. split.
    + intros H ->. by apply Qclt_not_eq in H.
    + intros Hne. apply Qcle_lt_or_eq in Hpos as [?|?]; [done|congruence].
Qed.

Lemma pow10_pos (p : Z) : 0 < JS.pow10 p.
Proof.
  unfold Qclt, JS.pow10. rewrite !this_Q2Qc. apply Qpower_0_lt. reflexivity.
Qed.

Lemma pow10_nonzero (p : Z) : JS.pow10 p ≠ 0.
Proof. intros H. pose proof (pow10_pos p) as Hp. rewrite H in Hp. by apply Qclt_not_eq in Hp. Qed.

(** ** Values on the grid of the rounding precision *)

Section Grid.
Variable p : Z.

Lemma round_on_grid (v : Qc) : on_grid p (round p v).
Proof. eexists. reflexivity. Qed.

Lemma on_grid_0 : on_grid p 0.
Proof. exists 0%Z. rewrite Qc_of_Z_0. field. apply pow10_nonzero. Qed.

Lemma on_grid_plus (v w : Qc) : on_grid p v → on_grid p w → on_grid p (v + w).
Proof.
  intros [m ->] [n ->]. exists (m + n)%Z. rewrite Qc_of_Z_plus.
  field. apply pow10_nonzero.
Qed.

(** Re-rounding a sum whose first summand is on the grid only rounds
    the second summand. *)
Lemma round_plus_on_grid (v w : Qc) :
  on_grid p v → round p (v + w) = v + round p w.
Proof.
  intros [m ->]. unfold round. cbv zeta.
  pose proof (pow10_nonzero p) as HF.
  replace ((Qc_of_Z m / JS.pow10 p + w) * JS.pow10 p)
    with (Qc_of_Z m + w * JS.pow10 p) by (field; exact HF).
  rewrite Math_round_plus_Z. field. exact HF.
Qed.

Lemma round_id_on_grid (v : Qc) : on_grid p v → round p v = v.
Proof.
  intros Hv. rewrite <- (Qcplus_0_r v) at 1.
  rewrite round_plus_on_grid by exact Hv.
  unfold round. cbv zeta. rewrite Qcmult_0_l.
  replace (JS.Math_round 0) with (Q2Qc 0)
    by (rewrite <- Qc_of_Z_0; symmetry; apply Math_round_Z).
  field. apply pow10_nonzero.
Qed.

End Grid.

(** ** Sums *)

Lemma sum_app (l1 l2 : list Qc) : sum (l1 ++ l2) = sum l1 + sum l2.
Proof.
  induction l1 as [|a l1 IH]; simpl.
  - by rewrite Qcplus_0_l.
  - rewrite IH. apply Qcplus_assoc.
Qed.

Lemma sum_snoc (l : list Qc) (a : Qc) : sum (l ++ [a]) = sum l + a.
Proof. rewrite sum_app. simpl. by rewrite Qcplus_0_r. Qed.

Lemma sum_Permutation (l1 l2 : list Qc) : l1 ≡ₚ l2 → sum l1 = sum l2.
Proof.
  induction 1 as [|a l1 l2 _ IH|a b l|l1 l2 l3 _ IH1 _ IH2]; simpl.
  - reflexivity.
  - by rewrite IH.
  - ring.
  - by rewrite IH1.
Qed.

Lemma sum_on_grid (p : Z) (l : list Qc) : Forall (on_grid p) l → on_grid p (sum l).
Proof.
  induction 1 as [|a l Ha _ IH]; simpl.
  - apply on_grid_0.
  - by apply on_grid_plus.
Qed.

(** ** First-seen categories *)

Lemma elem_of_first_seen (c : string) (l : list string) :
  c ∈ first_seen l ↔ c ∈ l.
Proof.
  induction l as [|a l IH]; simpl; [done|].
  rewrite !elem_of_cons, list_elem_of_filter, IH.
  destruct (decide (c = a)); tauto.
Qed.

Lemma NoDup_first_seen (l : list string) : NoDup (first_seen l).
Proof.
  induction l as [|a l IH]; simpl; [constructor|].
  constructor.
  - rewrite list_elem_of_filter. tauto.
  - by apply NoDup_filter.
Qed.

Lemma first_seen_snoc (l : list string) (c : string) :
  first_seen (l ++ [c]) =
  if decide (c ∈ l) then first_seen l else first_seen l ++ [c].
Proof.
  induction l as [|a l IH]; simpl.
  - done.
  - rewrite IH.
    destruct (decide (c ∈ l)) as [Hin|Hnin], (decide (c ∈ a :: l)) as [Hin'|Hnin'].
    + done.
    + exfalso. apply Hnin'. by right.
    + apply elem_of_cons in Hin' as [->|?]; [|done].
      rewrite filter_app, filter_cons_False, filter_nil, app_nil_r by naive_solver.
      done.
    + rewrite filter_app, filter_cons_True, filter_nil; [done|].
      intros ->. apply Hnin'. by left.
Qed.

(** ** The lines of one category *)

Lemma lines_of_snoc (c : string) (l : list BudgetLine.t) (x : BudgetLine.t) :
  lines_of c (l ++ [x]) =
  if decide (BudgetLine.category x = c) then lines_of c l ++ [x] else lines_of c l.
Proof.
  unfold lines_of. rewrite filter_app.
  destruct (decide (BudgetLine.category x = c)) as [H|H].
  - by rewrite filter_cons_True, filter_nil.
  - by rewrite filter_cons_False, filter_nil, app_nil_r.
Qed.

Lemma lines_of_absent (c : string) (l : list BudgetLine.t) :
  c ∉ BudgetLine.category <$> l → lines_of c l = [].
Proof.
  intros Hc. unfold lines_of. induction l as [|x l IH]; [done|].
  rewrite fmap_cons, not_elem_of_cons in Hc. destruct Hc as [Hne Hc].
  rewrite filter_cons_False by congruence. by apply IH.
Qed.

Lemma lines_of_Permutation (c : string) (l1 l2 : list BudgetLine.t) :
  l1 ≡ₚ l2 → lines_of c l1 ≡ₚ lines_of c l2.
Proof. intros H. unfold lines_of. by rewrite H. Qed.

(** ** [find] and the assignment through the found object *)

Lemma Array_find_fmap_absent (g : string → Summary.t) (c : string) (ks : list string) :
  (∀ k, Summary.name (g k) = k) → c ∉ ks →
  JS.Array_find (λ item, bool_decide (Summary.name item = c)) (g <$> ks) = None.
Proof.
  intros Hg. induction ks as [|k ks IH]; intros Hc; csimpl; [done|].
  apply not_elem_of_cons in Hc as [Hne Hc].
  rewrite bool_decide_eq_false_2 by (rewrite Hg; congruence). by apply IH.
Qed.

Lemma Array_find_fmap_present (g : string → Summary.t) (c : string) (ks : list string) :
  (∀ k, Summary.name (g k) = k) → c ∈ ks →
  JS.Array_find (λ item, bool_decide (Summary.name item = c)) (g <$> ks) = Some (g c).
Proof.
  intros Hg. induction ks as [|k ks IH]; intros Hc; csimpl.
  - by apply elem_of_nil in Hc.
  - destruct (decide (k = c)) as [->|Hne].
    + by rewrite bool_decide_eq_true_2 by apply Hg.
    + rewrite bool_decide_eq_false_2 by (rewrite Hg; congruence).
      apply IH. apply elem_of_cons in Hc as [?|?]; [congruence|done].
Qed.

Lemma assign_found_fmap (f : Summary.t → Summary.t) (g g' : string → Summary.t)
    (c : string) (ks : list string) :
  NoDup ks →
  (∀ k, Summary.name (g k) = k) →
  g' c = f (g c) →
  (∀ k, k ≠ c → g' k = g k) →
  JS.assign_found (λ item, bool_decide (Summary.name item = c)) f (g <$> ks)
  = g' <$> ks.
Proof.
  intros Hnd Hg Hc Hother. induction Hnd as [|k ks Hk Hnd IH]; csimpl; [done|].
  destruct (decide (k = c)) as [->|Hne].
  - rewrite bool_decide_eq_true_2 by apply Hg. rewrite Hc. f_equal.
    apply list_fmap_ext. intros i k Hik. symmetry. apply Hother.
    intros ->. apply Hk. by eapply list_elem_of_lookup_2.
  - rewrite bool_decide_eq_false_2 by (rewrite Hg; congruence).
    rewrite Hother by done. by rewrite IH.
Qed.

(** ** The reduce computes the specification *)

Section AggregateCorrect.
Variable p : Z.

Lemma summary_of_name (data : list BudgetLine.t) (c : string) :
  Summary.name (summary_of p data c) = c.
Proof. reflexivity. Qed.

Lemma summary_of_on_grid (data : list BudgetLine.t) (c : string) :
  on_grid p (Summary.original (summary_of p data c)) ∧
  on_grid p (Summary.final (summary_of p data c)) ∧
  on_grid p (Summary.adjustment (summary_of p data c)).
Proof.
  repeat split; simpl; apply sum_on_grid, Forall_fmap, Forall_forall;
    intros x _; apply round_on_grid.
Qed.

Lemma summary_of_snoc_other (l : list BudgetLine.t) (x : BudgetLine.t) (c : string) :
  c ≠ BudgetLine.category x → summary_of p (l ++ [x]) c = summary_of p l c.
Proof.
  intros Hne. unfold summary_of. rewrite lines_of_snoc.
  by rewrite decide_False by congruence.
Qed.

Lemma reducer_spec (l : list BudgetLine.t) (x : BudgetLine.t) :
  reducer p (aggregate_spec p l) x = aggregate_spec p (l ++ [x]).
Proof.
  unfold reducer, aggregate_spec. cbv zeta.
  rewrite fmap_app. csimpl. rewrite first_seen_snoc.
  set (c := BudgetLine.category x).
  destruct (decide (c ∈ BudgetLine.category <$> l)) as [Hin|Hnin].
  - rewrite (Array_find_fmap_present _ c)
      by (try apply summary_of_name; by apply elem_of_first_seen).
    apply assign_found_fmap.
    + apply NoDup_first_seen.
    + apply summary_of_name.
    + destruct (summary_of_on_grid l c) as (Ho & Hf & Ha).
      unfold summary_of in *. simpl in *. rewrite lines_of_snoc.
      rewrite decide_True by done. rewrite !fmap_app. csimpl.
      rewrite !sum_snoc. f_equal; symmetry.
      * by apply round_plus_on_grid.
      * rewrite round_plus_on_grid by done. f_equal.
        apply round_id_on_grid, round_on_grid.
      * by apply round_plus_on_grid.
    + intros k Hk. by apply summary_of_snoc_other.
  - rewrite (Array_find_fmap_absent _ c)
      by (try apply summary_of_name; by rewrite elem_of_first_seen).
    rewrite fmap_app. simpl. f_equal.
    + apply list_fmap_ext. intros i k Hik. symmetry.
      apply summary_of_snoc_other. intros ->. apply Hnin.
      apply elem_of_first_seen. by eapply list_elem_of_lookup_2.
    + unfold summary_of. rewrite lines_of_snoc, decide_True by done.
      rewrite lines_of_absent by done. simpl.
      by rewrite !Qcplus_0_r.
Qed.

Lemma aggregate_is_spec (data : list BudgetLine.t) :
  aggregate p data = aggregate_spec p data.
Proof.
  induction data as [|x l IH] using rev_ind; [done|].
  unfold aggregate in *. rewrite fold_left_app. simpl. rewrite IH.
  apply reducer_spec.
Qed.
End AggregateCorrect.

(** The names of the reduce: the categories in first-seen order. *)
Lemma aggregate_names (data : list BudgetLine.t) (p : Z) :
  Summary.name <$> aggregate p data = first_seen (BudgetLine.category <$> data).
Proof.
  rewrite aggregate_is_spec. unfold aggregate_spec.
  rewrite <- list_fmap_compose. apply list_fmap_id.
Qed.

(** ** [Array.prototype.sort] *)

Section Sort.
Context {A : Type}.

Lemma sort_insert_Permutation (cmp : A → A → Qc) (x : A) (l : list A) :
  JS.sort_insert cmp x l ≡ₚ x :: l.
Proof.
  induction l as [|y l IH]; simpl; [done|].
  destruct (decide (0 < cmp x y)); [|done].
  rewrite IH. apply perm_swap.
Qed.

Lemma Array_sort_Permutation (cmp : A → A → Qc) (l : list A) :
  JS.Array_sort cmp l ≡ₚ l.
Proof.
  induction l as [|x l IH]; simpl; [done|].
  rewrite sort_insert_Permutation. by rewrite IH.
Qed.

Variable key : A → Qc.

Lemma sort_insert_sorted (x : A) (l : list A) :
  StronglySorted (descending key) l →
  StronglySorted (descending key) (JS.sort_insert (λ a b, key b - key a) x l).
Proof.
  induction 1 as [|y l Hl IH Hy]; simpl.
  - repeat constructor.
  - destruct (decide (0 < key y - key x)) as [Hlt|Hge].
    + constructor; [exact IH|].
      rewrite sort_insert_Permutation. constructor; [|exact Hy].
      unfold descending. apply Qclt_le_weak.
      apply Qclt_minus_iff. exact Hlt.
    + assert (Hxy : key y ≤ key x).
      { apply Qcnot_lt_le. intros Hlt. apply Hge.
        by apply Qclt_minus_iff in Hlt. }
      constructor; [by constructor|].
      constructor; [exact Hxy|].
      eapply Forall_impl; [exact Hy|].
      intros z Hz. unfold descending in *. by etrans.
Qed.

Lemma Array_sort_sorted (l : list A) :
  StronglySorted (descending key) (JS.Array_sort (λ a b, key b - key a) l).
Proof.
  induction l as [|x l IH]; simpl; [constructor|].
  by apply sort_insert_sorted.
Qed.
End Sort.

(** ** The sum of the rounded lines *)

Section SumBound.
Variable p : Z.





End SumBound.







(** * The claims *)

(** ** Aggregation *)

(** With exact arithmetic the aggregator, which re-rounds after every
    addition, computes the same list as rounding every line once and
    summing: one summary per category, in first-seen order, whose
    [original] is the sum of [round originalAmount], whose [final] is the
    sum of [round (originalAmount + adjustment)] and whose [adjustment] is
    the sum of [round adjustment], over exactly the lines of that
    category. *)
Lemma exact_aggregate_refines_spec (data : list BudgetLine.t) (p : Z) :
  Charts.aggregatedData data p = aggregate_spec p data ∧
  Summary.name <$> aggregate p data = first_seen (BudgetLine.category <$> data) ∧
  Forall
    (λ s,
       Summary.original s =
         sum (round p ∘ BudgetLine.originalAmount
                <$> lines_of (Summary.name s) data) ∧
       Summary.final s =
         sum ((λ x, round p (BudgetLine.originalAmount x + BudgetLine.adjustment x))
                <$> lines_of (Summary.name s) data) ∧
       Summary.adjustment s =
         sum (round p ∘ BudgetLine.adjustment
                <$> lines_of (Summary.name s) data))
    (aggregate p data).
Proof.
  split_and!; [apply aggregate_is_spec|apply aggregate_names|].
  apply Forall_forall. intros s Hs. rewrite aggregate_is_spec in Hs.
  apply list_elem_of_fmap in Hs as (c & -> & _). done.
Qed.

(** With exact arithmetic the summaries of a permuted input are the
    summaries of the input, up to their order. *)
Lemma exact_aggregate_order_independent (data data' : list BudgetLine.t) (p : Z) :
  data ≡ₚ data' →
  Charts.aggregatedData data p ≡ₚ Charts.aggregatedData data' p ∧
  ∀ newInvestment,
    ChartViews.aggregatedData data p newInvestment
      ≡ₚ ChartViews.aggregatedData data' p newInvestment.
Proof.
  intros Hperm.
  assert (Hagg : aggregate p data ≡ₚ aggregate p data').
  { rewrite !aggregate_is_spec. unfold aggregate_spec.
    trans (summary_of p data <$> first_seen (BudgetLine.category <$> data')).
    - apply fmap_Permutation, NoDup_Permutation; try apply NoDup_first_seen.
      intros c. rewrite !elem_of_first_seen. by rewrite Hperm.
    - erewrite list_fmap_ext; [reflexivity|].
      intros _ c _. unfold summary_of.
      pose proof (lines_of_Permutation c _ _ Hperm) as Hc.
      f_equal; apply sum_Permutation, fmap_Permutation, Hc. }
  split; [exact Hagg|].
  intros newInvestment. unfold ChartViews.aggregatedData.
  rewrite !Array_sort_Permutation. unfold ChartViews.inject_investment.
  destruct (_ && _); by rewrite Hagg.
Qed.

(** The operations of [Binary64] on the numbers of the examples are the
    prover's primitive binary64 operations. *)
Lemma Binary64_agrees_with_primitive_floats :
  float_value_checks = true.
Proof. vm_compute. reflexivity. Qed.

(** C1: the aggregation is meant not to depend on the order of the lines,
    and [round] is there to keep binary rounding errors out of the sums;
    it does not.  On binary64 numbers, at precision 1, the two lines 0.25
    and 0.35 of one category aggregate to an [original] of 0.6 in this
    order and of 0.7 in the other: [0.3 + 0.35] is the double below 0.65,
    which rounds down, [0.4 + 0.25] is the double 0.65, which rounds up.
    The [final] field, whose lines are rounded before they are added, is
    0.7 in both orders. *)
Theorem aggregate_depends_on_line_order :
  [tie_line_25; tie_line_35] ≡ₚ [tie_line_35; tie_line_25] ∧
  Binary64.aggregate 1 [tie_line_25; tie_line_35]
    = [Summary.Build "A" (Binary64.number 6 10) (Binary64.number 7 10) 0] ∧
  Binary64.aggregate 1 [tie_line_35; tie_line_25]
    = [Summary.Build "A" (Binary64.number 7 10) (Binary64.number 7 10) 0] ∧
  ¬ Binary64.aggregate 1 [tie_line_25; tie_line_35]
      ≡ₚ Binary64.aggregate 1 [tie_line_35; tie_line_25].
Proof.
  assert (H1 : Binary64.aggregate 1 [tie_line_25; tie_line_35]
    = [Summary.Build "A" (Binary64.number 6 10) (Binary64.number 7 10) 0])
    by compute_done.
  assert (H2 : Binary64.aggregate 1 [tie_line_35; tie_line_25]
    = [Summary.Build "A" (Binary64.number 7 10) (Binary64.number 7 10) 0])
    by compute_done.
  split_and!; [apply perm_swap|exact H1|exact H2|].
  rewrite H1, H2. intros Hperm. apply Permutation_singleton_inj in Hperm.
  revert Hperm. compute_done.
Qed.

(** C10: re-rounding after every addition is meant to give the sums of
    the once-rounded lines; on binary64 numbers it does not.  At precision
    1 the lines 0.25 and 0.35 round to 0.3 and 0.4, whose sum is 0.7, but
    the aggregator adds the unrounded 0.35 to the rounded 0.3 and rounds
    the double below 0.65 down to 0.6. *)
Theorem aggregate_differs_from_rounding_once :
  Summary.original <$> Binary64.aggregate 1 [tie_line_25; tie_line_35]
    = [Binary64.number 6 10] ∧
  Binary64.round 1 (BudgetLine.originalAmount tie_line_25) = Binary64.number 3 10 ∧
  Binary64.round 1 (BudgetLine.originalAmount tie_line_35) = Binary64.number 4 10 ∧
  Binary64.fl (Binary64.number 3 10 + Binary64.number 4 10) = Binary64.number 7 10 ∧
  Binary64.number 6 10 ≠ Binary64.number 3 10 + Binary64.number 4 10 ∧
  Binary64.fl (Binary64.number 3 10 + BudgetLine.originalAmount tie_line_35)
    < Q2Qc (65 # 100).
Proof. split_and!; compute_done. Qed.



(** The names of the derived list are those of the reduce, then the
    synthetic one when an investment is injected; without a clash they
    are pairwise distinct. *)
Lemma aggregatedData_names_NoDup (data : list BudgetLine.t) (p : Z)
    (newInvestment : option Qc) :
  "Nieuwe Investering" ∉ BudgetLine.category <$> data →
  NoDup (Summary.name <$> ChartViews.aggregatedData data p newInvestment).
Proof.
  intros Hfresh. unfold ChartViews.aggregatedData.
  rewrite Array_sort_Permutation. unfold ChartViews.inject_investment.
  destruct (_ && _).
  - rewrite fmap_app, aggregate_names.
    change (Summary.name <$> [?s]) with [Summary.name s]. cbn [Summary.name].
    apply NoDup_app. split_and!.
    + apply NoDup_first_seen.
    + intros c Hc Hc'. rewrite elem_of_first_seen in Hc.
      apply list_elem_of_singleton in Hc'. subst c. by apply Hfresh.
    + apply NoDup_singleton.
  - rewrite aggregate_names. apply NoDup_first_seen.
Qed.

(** C8: the derived summary list is meant to hold one summary per name,
    and the reduce does merge by name; the injection of the synthetic
    entry does not look the name up.  With a line of category
    "Nieuwe Investering" and an investment of 50 the derived list holds
    two summaries of that name. *)
Theorem investment_name_clash :
  Summary.name <$> ChartViews.aggregatedData clash_lines 2 (Some (Qc_of_Z 50))
    = ["Nieuwe Investering"; "Nieuwe Investering"] ∧
  ¬ NoDup (Summary.name <$>
             ChartViews.aggregatedData clash_lines 2 (Some (Qc_of_Z 50))).
Proof.
  assert (H : Summary.name <$>
              ChartViews.aggregatedData clash_lines 2 (Some (Qc_of_Z 50))
              = ["Nieuwe Investering"; "Nieuwe Investering"]) by compute_done.
  split; [exact H|]. rewrite H. intros Hnd.
  apply NoDup_cons in Hnd as [Hnotin _]. apply Hnotin. by left.
Qed.

(** ** Rounding *)

(** C3 as stated fails: the tie -0.5 of the scaled value goes up to 0,
    not away from zero to -1. *)
Lemma round_negative_tie_goes_up :
  round 2 (Q2Qc (-5 # 1000)) = 0 ∧ round 2 (Q2Qc (-5 # 1000)) ≠ Q2Qc (-1 # 100).
Proof. split; compute_done. Qed.

(** C3, amended: [round] is [Math.round] of the binary64 product
    [x * 10^p], divided by [10^p]: with [n] the integer nearest to that
    product, and on a tie the one towards +infinity, it is the double of
    [n / 10^p].  So [round 0.005 2 = 0.01] and [round (-0.005) 2 = 0]; and
    since the product is rounded before [Math.round] sees it,
    [round 1.005 2 = 1] (the product is below 100.5) and
    [round 0.15 1 = 0.2] (the product is 1.5). *)
Theorem round_nearest_ties_up (x : Qc) (p : Z) :
  (∃ n : Z,
     Binary64.round p x = Binary64.fl (Qc_of_Z n / Binary64.pow10 p) ∧
     Binary64.fl (x * Binary64.pow10 p) - / 2 < Qc_of_Z n ∧
     Qc_of_Z n ≤ Binary64.fl (x * Binary64.pow10 p) + / 2) ∧
  Binary64.round 2 (Binary64.number 5 1000) = Binary64.number 1 100 ∧
  Binary64.round 2 (Binary64.number (-5) 1000) = 0 ∧
  Binary64.round 2 (Binary64.number 1005 1000) = 1 ∧
  Binary64.round 1 (Binary64.number 15 100) = Binary64.number 2 10.
Proof.
  split; [|split_and!; compute_done].
  destruct (Math_round_nearest (Binary64.fl (x * Binary64.pow10 p)))
    as (n & Hn & Hlo & Hhi).
  exists n. unfold Binary64.round. cbv zeta. by rewrite Hn.
Qed.

(** ** The delta view *)

(** C6: [deltaData] holds exactly the summaries with a non-zero
    adjustment, in descending order of adjustment; none of its elements
    has adjustment 0, and it is empty exactly when every adjustment is 0. *)
Theorem deltaData_filtered_sorted (aggregated : list Summary.t) :
  Charts.deltaData_of aggregated
    ≡ₚ filter (λ d, Summary.adjustment d ≠ 0) aggregated ∧
  StronglySorted (descending Summary.adjustment) (Charts.deltaData_of aggregated) ∧
  Forall (λ d, Summary.adjustment d ≠ 0) (Charts.deltaData_of aggregated) ∧
  (Charts.deltaData_of aggregated = [] ↔
   Forall (λ d, Summary.adjustment d = 0) aggregated).
Proof.
  assert (Hfilter : filter (λ d, 0 < JS.Math_abs (Summary.adjustment d)) aggregated
                    = filter (λ d, Summary.adjustment d ≠ 0) aggregated).
  { apply list_filter_iff. intros d. apply Math_abs_pos. }
  assert (Hperm : Charts.deltaData_of aggregated
                    ≡ₚ filter (λ d, Summary.adjustment d ≠ 0) aggregated).
  { unfold Charts.deltaData_of. by rewrite Array_sort_Permutation, Hfilter. }
  split_and!.
  - exact Hperm.
  - apply Array_sort_sorted.
  - rewrite Hperm. apply Forall_forall. intros d Hd.
    by apply list_elem_of_filter in Hd as [? _].
  - split.
    + intros Hnil. rewrite Hnil in Hperm. symmetry in Hperm.
      apply Permutation_nil_r in Hperm.
      apply Forall_forall. intros d Hd.
      destruct (decide (Summary.adjustment d = 0)) as [|Hne]; [done|].
      assert (Hin : d ∈ filter (λ d, Summary.adjustment d ≠ 0) aggregated)
        by (by apply list_elem_of_filter).
      rewrite Hperm in Hin. by apply elem_of_nil in Hin.
    + intros Hall. apply Permutation_nil_r. rewrite Hperm. clear Hperm Hfilter.
      induction Hall as [|d l Hd _ IH]; [done|].
      by rewrite filter_cons_False by (intros H; by apply H).
Qed.

Lemma deltaData_filtered_sorted_witness :
  Forall (λ d, Summary.adjustment d = 0) [summary_B] ∧
  Charts.deltaData_of [summary_B] = [].
Proof.
  assert (H : Forall (λ d, Summary.adjustment d = 0) [summary_B])
    by (repeat constructor; compute_done).
  split; [exact H|].
  destruct (deltaData_filtered_sorted [summary_B]) as (_ & _ & _ & Hiff).
  exact (proj2 Hiff H).
Defined.

(** ** Treemap and stacked rows *)

Lemma getStackedData_rows (aggregated : list Summary.t)
    (originalBar finalBar : gmap string ChartViews.JSValue) :
  fold_left
    (λ '(originalBar, finalBar) item,
       (if decide (0 < Summary.original item)
        then JS.Object_set (Summary.name item)
               (ChartViews.VNum (Summary.original item)) originalBar
        else originalBar,
        if decide (0 < Summary.final item)
        then JS.Object_set (Summary.name item)
               (ChartViews.VNum (Summary.final item)) finalBar
        else finalBar))
    aggregated (originalBar, finalBar)
  = (stacked_row Summary.original aggregated originalBar,
     stacked_row Summary.final aggregated finalBar).
Proof.
  revert originalBar finalBar.
  induction aggregated as [|item l IH]; intros originalBar finalBar; [done|].
  cbn [fold_left]. rewrite IH. reflexivity.
Qed.

Section StackedRow.
Variable val : Summary.t → Qc.

Lemma stacked_row_cons (item : Summary.t) (l : list Summary.t)
    (row : gmap string ChartViews.JSValue) :
  stacked_row val (item :: l) row =
  stacked_row val l
    (if decide (0 < val item)
     then JS.Object_set (Summary.name item) (ChartViews.VNum (val item)) row
     else row).
Proof. reflexivity. Qed.

Lemma stacked_row_positive (l : list Summary.t)
    (row : gmap string ChartViews.JSValue) :
  numbers_positive row → numbers_positive (stacked_row val l row).
Proof.
  revert row. induction l as [|item l IH]; intros row Hrow; [done|].
  rewrite stacked_row_cons. apply IH.
  destruct (decide (0 < val item)) as [Hpos|]; [|done].
  unfold JS.Object_set. case_decide; [done|].
  intros k v. rewrite lookup_insert. case_decide; [|by apply Hrow].
  intros [= <-]. exact Hpos.
Qed.

Lemma stacked_row_lookup_other (l : list Summary.t)
    (row : gmap string ChartViews.JSValue) (k : string) :
  k ∉ Summary.name <$> l → stacked_row val l row !! k = row !! k.
Proof.
  revert row. induction l as [|item l IH]; intros row Hk; [done|].
  rewrite fmap_cons, not_elem_of_cons in Hk. destruct Hk as [Hne Hk].
  rewrite stacked_row_cons, IH by done.
  destruct (decide (0 < val item)); [|done].
  unfold JS.Object_set. case_decide; [done|]. by rewrite lookup_insert_ne.
Qed.

(** The key [__proto__] is never stored. *)
Lemma stacked_row_lookup_proto (l : list Summary.t)
    (row : gmap string ChartViews.JSValue) :
  stacked_row val l row !! "__proto__" = row !! "__proto__".
Proof.
  revert row. induction l as [|item l IH]; intros row; [done|].
  rewrite stacked_row_cons, IH.
  destruct (decide (0 < val item)); [|done].
  unfold JS.Object_set. case_decide as Heq; [done|].
  by rewrite lookup_insert_ne.
Qed.

Lemma stacked_row_lookup (l : list Summary.t)
    (row : gmap string ChartViews.JSValue) (s : Summary.t) :
  NoDup (Summary.name <$> l) → s ∈ l → Summary.name s ≠ "__proto__" →
  stacked_row val l row !! Summary.name s =
  if decide (0 < val s) then Some (ChartViews.VNum (val s))
  else row !! Summary.name s.
Proof.
  intros Hnd Hs Hproto.
  revert row Hnd Hs. induction l as [|item l IH]; intros row Hnd Hs.
  - by apply elem_of_nil in Hs.
  - rewrite fmap_cons in Hnd. apply NoDup_cons in Hnd as [Hfresh Hnd].
    rewrite stacked_row_cons.
    apply elem_of_cons in Hs as [->|Hs].
    + rewrite stacked_row_lookup_other by done.
      destruct (decide (0 < val item)); [|done].
      unfold JS.Object_set. rewrite decide_False by done.
      by rewrite lookup_insert_eq.
    + rewrite IH by done.
      destruct (decide (0 < val s)); [done|].
      destruct (decide (0 < val item)); [|done].
      unfold JS.Object_set. case_decide; [done|].
      rewrite lookup_insert_ne; [done|].
      intros Heq. apply Hfresh. rewrite Heq. by apply list_elem_of_fmap_2.
Qed.
End StackedRow.

Lemma label_row_positive (label : string) :
  numbers_positive ({["name" := ChartViews.VStr label]}).
Proof.
  intros k v. rewrite lookup_singleton. case_decide; [|done]. done.
Qed.

Lemma label_row_lookup (label k : string) :
  k ≠ "name" →
  ({["name" := ChartViews.VStr label]} : gmap string ChartViews.JSValue) !! k
  = None.
Proof. intros Hk. by rewrite lookup_singleton_ne. Qed.

(** C7 as stated fails for two category names.  A category called
    "name" with a non-positive [original] is not left out of the
    original row: its key is there and holds the row label, not an
    amount.  A category called "__proto__" with a positive [final] is
    left out of the final row. *)
Lemma stacked_row_key_clash :
  (ChartViews.getStackedData_of [label_clash_summary]).1 !! "name"
    = Some (ChartViews.VStr "Origineel Budget") ∧
  ¬ 0 < Summary.original label_clash_summary ∧
  (ChartViews.getStackedData_of [proto_summary]).2 !! "__proto__" = None ∧
  0 < Summary.final proto_summary.
Proof. split_and!; compute_done. Qed.

(** C7, amended: every treemap entry has [final > 0], the entries being
    exactly the summaries with a positive [final]; in both stacked rows
    every number stored under a key is strictly positive; the
    key "__proto__" is never stored; and, the names being distinct, a
    summary whose name is neither "name" (the key of the row label) nor
    "__proto__" has its key in a row, holding its value for that row,
    exactly when that value is positive, and no key in that row
    otherwise, whatever its value for the other row. *)
Theorem no_nonpositive_magnitude (aggregated : list Summary.t) :
  Forall (λ n, 0 < Summary.final (ChartViews.node n) ∧
               ChartViews.size n = Summary.final (ChartViews.node n))
    (ChartViews.treemapData_of aggregated) ∧
  ChartViews.node <$> ChartViews.treemapData_of aggregated
    = filter (λ d, 0 < Summary.final d) aggregated ∧
  numbers_positive (ChartViews.getStackedData_of aggregated).1 ∧
  numbers_positive (ChartViews.getStackedData_of aggregated).2 ∧
  (ChartViews.getStackedData_of aggregated).1 !! "__proto__" = None ∧
  (ChartViews.getStackedData_of aggregated).2 !! "__proto__" = None ∧
  (NoDup (Summary.name <$> aggregated) →
   ∀ s, s ∈ aggregated →
     Summary.name s ≠ "name" → Summary.name s ≠ "__proto__" →
     (ChartViews.getStackedData_of aggregated).1 !! Summary.name s
       = (if decide (0 < Summary.original s)
          then Some (ChartViews.VNum (Summary.original s)) else None) ∧
     (ChartViews.getStackedData_of aggregated).2 !! Summary.name s
       = (if decide (0 < Summary.final s)
          then Some (ChartViews.VNum (Summary.final s)) else None)).
Proof.
  unfold ChartViews.getStackedData_of. rewrite getStackedData_rows.
  unfold ChartViews.treemapData_of. cbn [fst snd].
  split_and!.
  - apply Forall_fmap, Forall_forall. intros d Hd. cbn.
    by apply list_elem_of_filter in Hd as [? _].
  - rewrite <- list_fmap_compose. apply list_fmap_id.
  - apply stacked_row_positive, label_row_positive.
  - apply stacked_row_positive, label_row_positive.
  - rewrite stacked_row_lookup_proto. by apply label_row_lookup.
  - rewrite stacked_row_lookup_proto. by apply label_row_lookup.
  - intros Hnd s Hs Hname Hproto. rewrite !stacked_row_lookup by done.
    split; case_decide; try done; by apply label_row_lookup.
Qed.

Lemma no_nonpositive_magnitude_witness :
  NoDup (Summary.name <$> zero_original_summaries) ∧
  zero_original_summary ∈ zero_original_summaries ∧
  (ChartViews.getStackedData_of zero_original_summaries).1 !! "C" = None ∧
  (ChartViews.getStackedData_of zero_original_summaries).2 !! "C"
    = Some (ChartViews.VNum (Qc_of_Z 40)).
Proof.
  assert (Hnd : NoDup (Summary.name <$> zero_original_summaries)) by compute_done.
  assert (Hin : zero_original_summary ∈ zero_original_summaries) by compute_done.
  assert (Hname : Summary.name zero_original_summary ≠ "name") by compute_done.
  assert (Hproto : Summary.name zero_original_summary ≠ "__proto__")
    by compute_done.
  split; [exact Hnd|]. split; [exact Hin|].
  destruct (no_nonpositive_magnitude zero_original_summaries)
    as (_ & _ & _ & _ & _ & _ & H).
  exact (H Hnd zero_original_summary Hin Hname Hproto).
Defined.

(** ** The waterfall *)

Lemma Math_min_max_spec (x y : Qc) :
  (x ≤ y ∧ JS.Math_min x y = x ∧ JS.Math_max x y = y) ∨
  (y ≤ x ∧ JS.Math_min x y = y ∧ JS.Math_max x y = x).
Proof.
  unfold JS.Math_min, JS.Math_max. destruct (decide (x ≤ y)) as [Hle|Hgt].
  - by left.
  - right. split; [|done]. apply Qclt_le_weak. by apply Qcnot_le_lt.
Qed.

Section Waterfall.
Variable theme : ThemePalette.
Variable p : Z.



Lemma running_total_snoc (start : Qc) (steps : list Summary.t) (s : Summary.t) :
  running_total p start (steps ++ [s])
  = round p (running_total p start steps + Summary.adjustment s).
Proof. unfold running_total. by rewrite fold_left_app. Qed.

Lemma running_total_cons (start : Qc) (steps : list Summary.t) (s : Summary.t) :
  running_total p start (s :: steps)
  = running_total p (round p (start + Summary.adjustment s)) steps.
Proof. reflexivity. Qed.

(** From a start on the grid, the steps add their rounded adjustments. *)
Lemma running_total_sum (start : Qc) (steps : list Summary.t) :
  on_grid p start →
  running_total p start steps
  = start + sum (round p ∘ Summary.adjustment <$> steps).
Proof.
  revert start. induction steps as [|s steps IH]; intros start Hstart.
  - csimpl. by rewrite Qcplus_0_r.
  - rewrite running_total_cons, IH by apply round_on_grid.
    rewrite round_plus_on_grid by done. csimpl. ring.
Qed.



Lemma waterfall_fold (start : Qc) (steps : list Summary.t)
    (points : list ChartViews.WaterfallPoint) :
  fold_left (ChartViews.waterfall_step theme p) steps (points, start)
  = (points ++ imap (waterfall_point theme p start steps) steps,
     running_total p start steps).
Proof.
  induction steps as [|s steps IH] using rev_ind.
  - csimpl. by rewrite app_nil_r.
  - rewrite fold_left_app, IH. cbn [fold_left ChartViews.waterfall_step].
    rewrite running_total_snoc, imap_app, app_assoc. f_equal.
    f_equal; [f_equal|].
    + apply imap_ext. intros i x Hi. apply lookup_lt_Some in Hi.
      unfold waterfall_point.
      by rewrite !take_app_le by lia.
    + cbn [imap]. unfold waterfall_point.
      rewrite Nat.add_0_r, take_app_length, (take_ge (steps ++ [s]))
        by (rewrite length_app; simpl; lia).
      rewrite running_total_snoc. unfold step_fill.
      by repeat case_decide.
Qed.
End Waterfall.




(** ** The worked example *)

Ltac qc_struct_eq :=
  vm_compute;
  repeat first [ reflexivity | apply Qc_is_canon; reflexivity | f_equal ].

(** C5: on the lines [{A,100,10}; {A,50,-5}; {B,200,0}] at precision 2
    the aggregation is A:{150,155,5}, B:{200,200,0} (sorted by [final] in
    the second component: B, A); the delta view is [A]; the waterfall is
    the start total 350, one step for A with adjustment 5 from 350 to 355,
    and the end total 355. *)
Theorem worked_example (theme : ThemePalette) :
  Charts.aggregatedData example_lines 2 = [summary_A; summary_B] ∧
  Charts.deltaData example_lines 2 = [summary_A] ∧
  ChartViews.aggregatedData example_lines 2 None = [summary_B; summary_A] ∧
  ChartViews.getWaterfallData example_lines theme 2 None =
    [ ChartViews.Total "Start (Origineel)" (Qc_of_Z 350) "#94a3b8";
      ChartViews.Step "A" (Qc_of_Z 350, Qc_of_Z 355) (Qc_of_Z 5) (highRisk theme);
      ChartViews.Total "Eind (Nieuw)" (Qc_of_Z 355) (primary theme) ].
Proof.
  split_and!; [compute_done..|].
  destruct theme as [c1 c2 c3 c4 c5]. qc_struct_eq.
Qed.

(** ** The axis formatter *)

Lemma pretty_N_char_not_dot (x : N) : pretty_N_char x ≠ "."%char.
Proof. unfold pretty_N_char. by repeat case_match. Qed.

Lemma pretty_N_go_no_dot (x : N) (s : string) :
  occurs "." s = false → occurs "." (pretty_N_go x s) = false.
Proof.
  revert s. induction (N.lt_wf_0 x) as [x _ IH]; intros s Hs.
  destruct (decide (x = 0)%N) as [->|Hx].
  - by rewrite pretty_N_go_0.
  - rewrite pretty_N_go_step by lia. apply IH.
    + apply N.div_lt; lia.
    + cbn [occurs]. rewrite Hs.
      by rewrite bool_decide_eq_false_2 by apply pretty_N_char_not_dot.
Qed.

(** The decimal string of an integer holds no point. *)
Lemma pretty_Z_no_dot (n : Z) : occurs "." (pretty n) = false.
Proof.
  destruct n as [|x|x]; [done| |].
  - unfold pretty, pretty_Z, pretty, pretty_positive, pretty, pretty_N.
    rewrite decide_False by done. by apply pretty_N_go_no_dot.
  - unfold pretty, pretty_Z, pretty, pretty_positive, pretty, pretty_N.
    rewrite decide_False by done.
    change ("-" +:+ ?s) with (String "-" s). cbn [occurs].
    rewrite bool_decide_eq_false_2 by done. by apply pretty_N_go_no_dot.
Qed.

Lemma Math_abs_0 : JS.Math_abs 0 = 0.
Proof. compute_done. Qed.

Lemma Math_abs_large_nonzero (v : Qc) (n : Z) :
  (0 < n)%Z → Qc_of_Z n ≤ JS.Math_abs v → v ≠ 0.
Proof.
  intros Hn Hle ->. rewrite Math_abs_0 in Hle.
  unfold Qcle in Hle. rewrite this_of_Z in Hle.
  change (this 0) with (inject_Z 0) in Hle. rewrite <- Zle_Qle in Hle. lia.
Qed.

(** *** The digits printed by [toFixed] *)

Lemma pretty_Z_to_N (k : Z) : (0 ≤ k)%Z → pretty (Z.to_N k) = pretty k.
Proof. destruct k as [|q|q]; [done|done|lia]. Qed.

Lemma string_app_assoc (s t u : string) : (s +:+ t) +:+ u = s +:+ (t +:+ u).
Proof.
  induction s as [|c s IH]; [done|].
  change (String c ((s +:+ t) +:+ u) = String c (s +:+ (t +:+ u))).
  by rewrite IH.
Qed.

Lemma string_length_app (s t : string) :
  String.length (s +:+ t) = (String.length s + String.length t)%nat.
Proof.
  induction s as [|c s IH]; [done|].
  change (S (String.length (s +:+ t))
          = S (String.length s + String.length t)).
  by rewrite IH.
Qed.

Lemma substring_all (t : string) : String.substring 0 (String.length t) t = t.
Proof.
  induction t as [|c t IH]; [done|].
  change (String c (String.substring 0 (String.length t) t) = String c t).
  by rewrite IH.
Qed.

Lemma substring_prefix (s t : string) :
  String.substring 0 (String.length s) (s +:+ t) = s.
Proof.
  induction s as [|c s IH]; [by destruct t|].
  change (String c (String.substring 0 (String.length s) (s +:+ t)) = String c s).
  by rewrite IH.
Qed.

Lemma substring_suffix (s t : string) :
  String.substring (String.length s) (String.length t) (s +:+ t) = t.
Proof. induction s as [|c s IH]; [apply substring_all|]. exact IH. Qed.

Lemma pretty_N_go_app (x : N) (s : string) :
  pretty_N_go x s = pretty_N_go x "" +:+ s.
Proof.
  revert s. induction (N.lt_wf_0 x) as [x _ IH]; intros s.
  destruct (decide (x = 0)%N) as [->|Hx]; [by rewrite !pretty_N_go_0|].
  rewrite !(pretty_N_go_step x) by lia.
  assert (Hlt : (x `div` 10 < x)%N) by (apply N.div_lt; lia).
  rewrite (IH _ Hlt (String (pretty_N_char (x `mod` 10)) s)).
  rewrite (IH _ Hlt (String (pretty_N_char (x `mod` 10)) "")).
  by rewrite string_app_assoc.
Qed.

(** The decimal string of a number of one digit. *)
Lemma pretty_N_digit (x : N) :
  (x < 10)%N → pretty x = String (pretty_N_char x) "".
Proof.
  intros Hx.
  assert (x = 0 ∨ x = 1 ∨ x = 2 ∨ x = 3 ∨ x = 4 ∨ x = 5 ∨ x = 6 ∨ x = 7
          ∨ x = 8 ∨ x = 9)%N as Hcases by lia.
  repeat destruct Hcases as [->|Hcases]; try done. by subst x.
Qed.

(** The decimal string of a number of several digits: that of its
    tenth, then its last digit. *)
Lemma pretty_N_snoc (x : N) :
  (10 ≤ x)%N →
  pretty x = pretty (x `div` 10)%N +:+ String (pretty_N_char (x `mod` 10)) "".
Proof.
  intros Hx. unfold pretty, pretty_N.
  rewrite !decide_False.
  - rewrite pretty_N_go_step by lia. apply pretty_N_go_app.
  - intros H0. apply N.div_small_iff in H0; lia.
  - lia.
Qed.

Lemma pretty_N_nonempty (x : N) : (1 ≤ String.length (pretty x))%nat.
Proof.
  destruct (decide (x < 10)%N) as [Hx|Hx].
  - rewrite pretty_N_digit by done. cbn. lia.
  - rewrite pretty_N_snoc by lia. rewrite string_length_app. cbn. lia.
Qed.

(** [toFixed(1)] prints the tenths as the whole part, a point and one
    digit. *)
Lemma fixed_digits_1 (n : Z) :
  (0 ≤ n)%Z →
  JS.fixed_digits 1 n = pretty (n / 10)%Z +:+ "." +:+ pretty (n mod 10)%Z.
Proof.
  intros Hn.
  rewrite <- (pretty_Z_to_N (n / 10)) by (apply Z.div_pos; lia).
  rewrite <- (pretty_Z_to_N (n mod 10)) by (apply Z.mod_pos_bound; lia).
  rewrite Z2N.inj_div, Z2N.inj_mod by lia.
  change (Z.to_N 10) with 10%N. set (x := Z.to_N n).
  unfold JS.fixed_digits.
  assert (Hlast : pretty (x `mod` 10)%N = String (pretty_N_char (x `mod` 10)) "").
  { apply pretty_N_digit. apply N.mod_lt. lia. }
  destruct (decide (x < 10)%N) as [Hx|Hx].
  - rewrite N.div_small, N.mod_small by done.
    rewrite (pretty_N_digit x), (pretty_N_digit (Z.to_N n)) by done.
    cbv zeta. cbn [String.length].
    rewrite decide_True by lia. reflexivity.
  - rewrite Hlast, (pretty_N_snoc (Z.to_N n)) by lia.
    fold x.
    set (P := pretty (x `div` 10)%N).
    pose proof (pretty_N_nonempty (x `div` 10)%N) as HP. fold P in HP.
    cbv zeta. rewrite string_length_app. cbn [String.length].
    rewrite decide_False by lia.
    rewrite !string_length_app. cbn [String.length].
    replace (String.length P + 1 - 1)%nat with (String.length P) by lia.
    rewrite substring_prefix.
    change 1%nat with (String.length (String (pretty_N_char (x `mod` 10)) "")) at 1.
    by rewrite substring_suffix.
Qed.

Lemma fixed_int_nonneg (f : nat) (x : Qc) : 0 ≤ x → (0 ≤ JS.fixed_int f x)%Z.
Proof.
  intros Hx. unfold JS.fixed_int.
  pose proof (pow10_pos (Z.of_nat f)) as HF.
  assert (H0 : 0 ≤ x * JS.pow10 (Z.of_nat f)).
  { rewrite <- (Qcmult_0_l (JS.pow10 (Z.of_nat f))).
    apply Qcmult_le_compat_r; [done|]. by apply Qclt_le_weak. }
  change 0%Z with (Qfloor 0). apply Qfloor_resp_le.
  unfold Qcle in H0. change (this 0) with 0%Q in H0. lra.
Qed.

(** Below [10^21] the two models of [toFixed] agree. *)
Lemma Binary64_toFixed_small (f : nat) (x : Qc) :
  JS.Math_abs x < JS.pow10 21 → Binary64.toFixed f x = JS.toFixed f x.
Proof.
  intros Hsmall. unfold Binary64.toFixed, JS.toFixed, JS.Math_abs in *.
  cbv zeta. destruct (decide (x < 0)).
  - rewrite !decide_False; [done| |]; by apply Qclt_not_le.
  - rewrite !decide_False; [done| |]; by apply Qclt_not_le.
Qed.

Lemma Binary64_small_integers_checked :
  forallb (λ n, bool_decide (Binary64.formatValue false (Qc_of_Z n) = pretty n))
    (seqZ (-999) 1999) = true.
Proof. vm_compute. reflexivity. Qed.

(** C9 as stated fails: a value that is not an integer and is below one
    thousand is shown by [toString] with its fraction digits, which is
    not the decimal string of any integer. *)
Lemma formatValue_half_is_not_an_integer_string :
  formatValue false (Q2Qc (1 # 2)) = "0.5" ∧
  ¬ ∃ n : Z, formatValue false (Q2Qc (1 # 2)) = pretty n.
Proof.
  assert (H : formatValue false (Q2Qc (1 # 2)) = "0.5") by compute_done.
  split; [exact H|]. intros [n Hn]. rewrite H in Hn.
  pose proof (pretty_Z_no_dot n) as Hdot. by rewrite <- Hn in Hdot.
Qed.

(** C9, amended: [formatValue] returns "0" for 0; otherwise, when
    [showInThousands] is set, [(v / 1000).toFixed(1)] followed by "k",
    whatever the magnitude; otherwise [(v / 1e6).toFixed(1)] followed by
    "M" when [|v| ≥ 1e6], [(v / 1e3).toFixed(0)] followed by "k" when
    [|v| ≥ 1e3], and [v.toString()] below that, which is the decimal
    string of [v] when [v] is an integer.  The quotients are doubles.
    [toFixed] prints a minus sign for a negative double and then, below
    [10^21]: with no fraction digit the integer nearest to the double,
    with one fraction digit the nearest number of tenths as the whole
    part, a point and one digit; on a tie the larger.  So 1500 gives "2k"
    and 1500000 gives "1.5M", and since 150 / 1000 and 1450000 / 1e6 are
    the doubles below 0.15 and 1.45, 150 gives "0.1k" with the flag and
    1450000 gives "1.4M". *)
Theorem formatValue_cases (v : Qc) (flag : bool) :
  Binary64.formatValue flag 0 = "0" ∧
  (v ≠ 0 →
   Binary64.formatValue true v
     = Binary64.toFixed 1 (Binary64.fl (v / Qc_of_Z 1000)) +:+ "k") ∧
  (Qc_of_Z 1000000 ≤ JS.Math_abs v →
   Binary64.formatValue false v
     = Binary64.toFixed 1 (Binary64.fl (v / Qc_of_Z 1000000)) +:+ "M") ∧
  (Qc_of_Z 1000 ≤ JS.Math_abs v → JS.Math_abs v < Qc_of_Z 1000000 →
   Binary64.formatValue false v
     = Binary64.toFixed 0 (Binary64.fl (v / Qc_of_Z 1000)) +:+ "k") ∧
  (v ≠ 0 → JS.Math_abs v < Qc_of_Z 1000 →
   Binary64.formatValue false v = Binary64.Number_toString v) ∧
  (∀ n : Z, v = Qc_of_Z n → (-1000 < n < 1000)%Z →
   Binary64.formatValue false v = pretty n) ∧
  (v < 0 → ∀ f : nat, Binary64.toFixed f v = "-" +:+ Binary64.toFixed f (- v)) ∧
  (0 ≤ v → v < JS.pow10 21 →
   ∃ n0 n1 : Z,
     (v - / 2 < Qc_of_Z n0 ∧ Qc_of_Z n0 ≤ v + / 2 ∧
      Binary64.toFixed 0 v = pretty n0) ∧
     (v * Qc_of_Z 10 - / 2 < Qc_of_Z n1 ∧ Qc_of_Z n1 ≤ v * Qc_of_Z 10 + / 2 ∧
      Binary64.toFixed 1 v = pretty (n1 / 10)%Z +:+ "." +:+ pretty (n1 mod 10)%Z)) ∧
  Binary64.formatValue false (Qc_of_Z 1500) = "2k" ∧
  Binary64.formatValue false (Qc_of_Z 1500000) = "1.5M" ∧
  Binary64.formatValue true (Qc_of_Z 150) = "0.1k" ∧
  Binary64.formatValue false (Qc_of_Z 1450000) = "1.4M".
Proof.
  split_and!.
  - unfold Binary64.formatValue. by rewrite decide_True.
  - intros Hv. unfold Binary64.formatValue. by rewrite decide_False.
  - intros Hbig. unfold Binary64.formatValue.
    rewrite decide_False by (by eapply Math_abs_large_nonzero; [|exact Hbig]).
    by rewrite decide_True.
  - intros Hbig Hsmall. unfold Binary64.formatValue.
    rewrite decide_False by (by eapply Math_abs_large_nonzero; [|exact Hbig]).
    rewrite decide_False by (by apply Qclt_not_le).
    by rewrite decide_True.
  - intros Hv Hsmall. unfold Binary64.formatValue.
    rewrite decide_False by done.
    rewrite decide_False.
    2:{ apply Qclt_not_le. etrans; [exact Hsmall|]. compute_done. }
    by rewrite decide_False by (by apply Qclt_not_le).
  - intros n -> Hn. pose proof Binary64_small_integers_checked as Hall.
    rewrite forallb_forall in Hall.
    eapply bool_decide_eq_true_1, Hall, list_elem_of_In, elem_of_seqZ. lia.
  - intros Hneg f. unfold Binary64.toFixed. cbv zeta.
    assert (Hpos : ¬ - v < 0).
    { intros H. unfold Qclt in Hneg, H. rewrite this_opp in H.
      change (this 0) with 0%Q in Hneg, H. lra. }
    rewrite !(decide_True (P := v < 0)) by done.
    rewrite !(decide_False (P := - v < 0)) by done.
    by destruct (decide (JS.pow10 21 ≤ - v)).
  - intros Hpos Hsmall.
    assert (Hnneg : ¬ v < 0) by (by apply Qcle_not_lt).
    assert (Habs : JS.Math_abs v < JS.pow10 21).
    { unfold JS.Math_abs. by rewrite decide_False. }
    assert (Hfixed : ∀ f, Binary64.toFixed f v
                          = JS.fixed_digits f (JS.fixed_int f v)).
    { intros f. rewrite Binary64_toFixed_small by done.
      unfold JS.toFixed. cbv zeta.
      rewrite !(decide_False (P := v < 0)) by done.
      by rewrite decide_False by (by apply Qclt_not_le). }
    exists (JS.fixed_int 0 v), (JS.fixed_int 1 v). split.
    + destruct (Math_round_nearest (v * JS.pow10 0)) as (n & Hn & Hlo & Hhi).
      unfold JS.Math_round in Hn.
      replace (v * JS.pow10 0) with v in Hlo, Hhi
        by (change (JS.pow10 0) with 1; ring).
      unfold JS.fixed_int at 1 2. change (Z.of_nat 0) with 0%Z. rewrite Hn.
      split_and!; [exact Hlo|exact Hhi|].
      rewrite Hfixed. cbn [JS.fixed_digits].
      apply pretty_Z_to_N, fixed_int_nonneg, Hpos.
    + destruct (Math_round_nearest (v * JS.pow10 1)) as (n & Hn & Hlo & Hhi).
      unfold JS.Math_round in Hn.
      replace (JS.pow10 1) with (Qc_of_Z 10) in Hlo, Hhi by compute_done.
      unfold JS.fixed_int at 1 2. change (Z.of_nat 1) with 1%Z. rewrite Hn.
      split_and!; [exact Hlo|exact Hhi|].
      rewrite Hfixed. apply fixed_digits_1, fixed_int_nonneg, Hpos.
  - compute_done.
  - compute_done.
  - compute_done.
  - compute_done.
Qed.

Lemma formatValue_cases_witness :
  (Qc_of_Z 1234 ≠ 0 ∧
   Binary64.formatValue true (Qc_of_Z 1234)
     = Binary64.toFixed 1 (Binary64.fl (Qc_of_Z 1234 / Qc_of_Z 1000)) +:+ "k") ∧
  (Qc_of_Z 1000000 ≤ JS.Math_abs (Qc_of_Z 1500000) ∧
   Binary64.formatValue false (Qc_of_Z 1500000)
     = Binary64.toFixed 1 (Binary64.fl (Qc_of_Z 1500000 / Qc_of_Z 1000000))
       +:+ "M") ∧
  (Qc_of_Z 1000 ≤ JS.Math_abs (Qc_of_Z 1500) ∧
   JS.Math_abs (Qc_of_Z 1500) < Qc_of_Z 1000000 ∧
   Binary64.formatValue false (Qc_of_Z 1500)
     = Binary64.toFixed 0 (Binary64.fl (Qc_of_Z 1500 / Qc_of_Z 1000)) +:+ "k") ∧
  (Q2Qc (1 # 2) ≠ 0 ∧ JS.Math_abs (Q2Qc (1 # 2)) < Qc_of_Z 1000 ∧
   Binary64.formatValue false (Q2Qc (1 # 2))
     = Binary64.Number_toString (Q2Qc (1 # 2))) ∧
  ((-1000 < -7 < 1000)%Z ∧
   Binary64.formatValue false (Qc_of_Z (-7)) = pretty (-7)%Z) ∧
  (Q2Qc (-3 # 2) < 0 ∧
   Binary64.toFixed 0 (Q2Qc (-3 # 2)) = "-" +:+ Binary64.toFixed 0 (- Q2Qc (-3 # 2))) ∧
  (0 ≤ Q2Qc (5 # 4) ∧ Q2Qc (5 # 4) < JS.pow10 21 ∧
   ∃ n0 n1 : Z,
     (Q2Qc (5 # 4) - / 2 < Qc_of_Z n0 ∧ Qc_of_Z n0 ≤ Q2Qc (5 # 4) + / 2 ∧
      Binary64.toFixed 0 (Q2Qc (5 # 4)) = pretty n0) ∧
     (Q2Qc (5 # 4) * Qc_of_Z 10 - / 2 < Qc_of_Z n1 ∧
      Qc_of_Z n1 ≤ Q2Qc (5 # 4) * Qc_of_Z 10 + / 2 ∧
      Binary64.toFixed 1 (Q2Qc (5 # 4))
        = pretty (n1 / 10)%Z +:+ "." +:+ pretty (n1 mod 10)%Z)).
Proof.
  assert (H1 : Qc_of_Z 1234 ≠ 0) by compute_done.
  assert (H2 : Qc_of_Z 1000000 ≤ JS.Math_abs (Qc_of_Z 1500000)) by compute_done.
  assert (H3 : Qc_of_Z 1000 ≤ JS.Math_abs (Qc_of_Z 1500)) by compute_done.
  assert (H3' : JS.Math_abs (Qc_of_Z 1500) < Qc_of_Z 1000000) by compute_done.
  assert (H4 : Q2Qc (1 # 2) ≠ 0) by compute_done.
  assert (H4' : JS.Math_abs (Q2Qc (1 # 2)) < Qc_of_Z 1000) by compute_done.
  assert (H5 : (-1000 < -7 < 1000)%Z) by lia.
  assert (H6 : Q2Qc (-3 # 2) < 0) by compute_done.
  assert (H7 : 0 ≤ Q2Qc (5 # 4)) by compute_done.
  assert (H7' : Q2Qc (5 # 4) < JS.pow10 21) by compute_done.
  pose proof (formatValue_cases (Qc_of_Z 1234) true) as (_ & C1 & _).
  pose proof (formatValue_cases (Qc_of_Z 1500000) false) as (_ & _ & C2 & _).
  pose proof (formatValue_cases (Qc_of_Z 1500) false) as (_ & _ & _ & C3 & _).
  pose proof (formatValue_cases (Q2Qc (1 # 2)) false) as (_ & _ & _ & _ & C4 & _).
  pose proof (formatValue_cases (Qc_of_Z (-7)) false)
    as (_ & _ & _ & _ & _ & C5 & _).
  pose proof (formatValue_cases (Q2Qc (-3 # 2)) false)
    as (_ & _ & _ & _ & _ & _ & C6 & _).
  pose proof (formatValue_cases (Q2Qc (5 # 4)) false)
    as (_ & _ & _ & _ & _ & _ & _ & C7 & _).
  split; [exact (conj H1 (C1 H1))|].
  split; [exact (conj H2 (C2 H2))|].
  split; [exact (conj H3 (conj H3' (C3 H3 H3')))|].
  split; [exact (conj H4 (conj H4' (C4 H4 H4')))|].
  split; [exact (conj H5 (C5 (-7)%Z eq_refl H5))|].
  split; [exact (conj H6 (C6 H6 0%nat))|].
  exact (conj H7 (conj H7' (C7 H7 H7'))).
Defined.

(** * Further properties of the components *)

(** ** Sorting and the sorted views *)

Lemma sort_insert_head {A} (key : A → Qc) (x : A) (l : list A) :
  Forall (descending key x) l →
  JS.sort_insert (λ a b, key b - key a) x l = x :: l.
Proof.
  destruct l as [|y l]; [done|]. intros Hx. apply Forall_cons in Hx as [Hy _].
  cbn [JS.sort_insert]. rewrite decide_False; [done|].
  unfold descending in Hy. intros Hlt. apply Qclt_minus_iff in Hlt.
  by apply Qclt_not_le in Hlt.
Qed.

Lemma Array_sort_sorted_id {A} (key : A → Qc) (l : list A) :
  StronglySorted (descending key) l →
  JS.Array_sort (λ a b, key b - key a) l = l.
Proof.
  induction 1 as [|x l _ IH Hx]; [done|].
  cbn [JS.Array_sort foldr]. fold (JS.Array_sort (λ a b, key b - key a) l).
  rewrite IH. by apply sort_insert_head.
Qed.

Lemma StronglySorted_filter {A} (R : relation A) (P : A → Prop)
    `{!∀ x, Decision (P x)} (l : list A) :
  StronglySorted R l → StronglySorted R (filter P l).
Proof.
  induction 1 as [|x l _ IH Hx]; [constructor|].
  destruct (decide (P x)).
  - rewrite filter_cons_True by done. constructor; [done|].
    apply Forall_forall. intros y Hy. apply list_elem_of_filter in Hy as [_ Hy].
    by eapply Forall_forall in Hx.
  - by rewrite filter_cons_False.
Qed.

(** X1: the totals view holds the aggregated summaries, all of them and
    no others, ordered by non-increasing [final]; sorting it again
    changes nothing. *)
Theorem totalData_sorted_permutation (data : list BudgetLine.t) (p : Z) :
  Charts.totalData data p ≡ₚ Charts.aggregatedData data p ∧
  StronglySorted (descending Summary.final) (Charts.totalData data p) ∧
  Charts.totalData_of (Charts.totalData data p) = Charts.totalData data p.
Proof.
  unfold Charts.totalData, Charts.totalData_of. split_and!.
  - apply Array_sort_Permutation.
  - apply Array_sort_sorted.
  - apply Array_sort_sorted_id, Array_sort_sorted.
Qed.

(** X2: the derived list of the second component is ordered by
    non-increasing [final] and holds the summaries of the reduce together
    with the synthetic investment summary exactly when the investment is
    positive; no investment, or a non-positive one, adds nothing. *)
Theorem aggregatedData_sorted_with_investment (data : list BudgetLine.t) (p : Z)
    (newInvestment : option Qc) :
  StronglySorted (descending Summary.final)
    (ChartViews.aggregatedData data p newInvestment) ∧
  ChartViews.aggregatedData data p newInvestment
    ≡ₚ aggregate p data ++
       (if decide (0 < default 0 newInvestment)
        then [ Summary.Build "Nieuwe Investering" 0
                 (round p (default 0 newInvestment))
                 (round p (default 0 newInvestment)) ]
        else []).
Proof.
  unfold ChartViews.aggregatedData. split; [apply Array_sort_sorted|].
  rewrite Array_sort_Permutation.
  unfold ChartViews.inject_investment, ChartViews.investment.
  destruct (decide (0 < default 0 newInvestment)) as [Hpos|Hnpos].
  - rewrite bool_decide_eq_true_2 by (intros H0; rewrite H0 in Hpos;
      by apply Qclt_not_eq in Hpos).
    by rewrite bool_decide_eq_true_2.
  - rewrite (bool_decide_eq_false_2 (0 < _)) by done.
    by rewrite andb_false_r, app_nil_r.
Qed.

(** X3: the treemap nodes come in non-increasing order of [size], since
    the derived list is sorted before the non-positive entries are
    filtered out. *)
Theorem treemapData_sorted_by_size (data : list BudgetLine.t) (p : Z)
    (newInvestment : option Qc) :
  StronglySorted (descending ChartViews.size)
    (ChartViews.treemapData data p newInvestment).
Proof.
  unfold ChartViews.treemapData, ChartViews.treemapData_of.
  eapply (StronglySorted_fmap _ (descending Summary.final)); [by intros x y|].
  apply StronglySorted_filter.
  unfold ChartViews.aggregatedData. apply Array_sort_sorted.
Qed.

(** ** Rounding *)

Lemma Math_round_mono (x y : Qc) : x ≤ y → JS.Math_round x ≤ JS.Math_round y.
Proof.
  intros Hxy. unfold JS.Math_round. apply Qc_of_Z_le, Qfloor_resp_le.
  unfold Qcle in Hxy. lra.
Qed.




Lemma round_mono (p : Z) (x y : Qc) : x ≤ y → round p x ≤ round p y.
Proof.
  intros Hxy. unfold round. cbv zeta. pose proof (pow10_pos p) as HF.
  unfold Qcdiv. apply Qcmult_le_compat_r.
  - apply Math_round_mono. apply Qcmult_le_compat_r; [done|].
    by apply Qclt_le_weak.
  - apply Qclt_le_weak. by apply Qcinv_pos.
Qed.

(** X5: [round] is monotone: a larger value never rounds to a smaller
    one, at any precision; in particular a value at or above a multiple
    [g] of the unit never rounds below [g]. *)
Theorem round_monotone (p : Z) (x y : Qc) :
  x ≤ y → round p x ≤ round p y ∧ (on_grid p x → x ≤ round p y).
Proof.
  intros Hxy. split; [by apply round_mono|].
  intros Hx. rewrite <- (round_id_on_grid p x Hx). by apply round_mono.
Qed.

Lemma round_monotone_witness :
  Q2Qc (1234 # 1000) ≤ Q2Qc (1236 # 1000) ∧
  round 2 (Q2Qc (1234 # 1000)) ≤ round 2 (Q2Qc (1236 # 1000)).
Proof.
  assert (H : Q2Qc (1234 # 1000) ≤ Q2Qc (1236 # 1000)) by compute_done.
  exact (conj H (proj1 (round_monotone 2 _ _ H))).
Defined.

(** ** Invariants of the aggregation *)


















(** ** More on the waterfall *)

Lemma getWaterfallData_of_shape (theme : ThemePalette) (p : Z)
    (aggregated : list Summary.t) :
  ChartViews.getWaterfallData_of theme p aggregated
  = ChartViews.Total "Start (Origineel)"
      (ChartViews.totalOriginal_of p aggregated) "#94a3b8"
    :: imap (waterfall_point theme p (ChartViews.totalOriginal_of p aggregated)
               (ChartViews.steps_of aggregated))
         (ChartViews.steps_of aggregated)
    ++ [ChartViews.Total "Eind (Nieuw)"
          (running_total p (ChartViews.totalOriginal_of p aggregated)
             (ChartViews.steps_of aggregated))
          (primary theme)].
Proof.
  unfold ChartViews.getWaterfallData_of. cbv zeta. by rewrite waterfall_fold.
Qed.





Lemma sum_take_nonpositive (l : list Qc) (i : nat) :
  Forall (λ d, d ≤ 0) l → sum l ≤ sum (take i l).
Proof.
  intros Hl. revert i. induction Hl as [|d l Hd _ IH]; intros i.
  - rewrite take_nil. apply Qcle_refl.
  - destruct i as [|i]; cbn [take sum foldr]; fold (sum l).
    + assert (Hs : sum l ≤ 0).
      { specialize (IH 0%nat). by rewrite take_0 in IH. }
      clear IH. qc_lra.
    + fold (sum (take i l)). specialize (IH i). qc_lra.
Qed.

(** The partial sums of a non-increasing sequence never fall below both
    zero and the full sum. *)
Lemma prefix_sum_lower_bound (l : list Qc) (i : nat) :
  StronglySorted (λ a b, b ≤ a) l → JS.Math_min 0 (sum l) ≤ sum (take i l).
Proof.
  intros Hl. revert i. induction Hl as [|d l _ IH Hd]; intros i.
  - rewrite take_nil. unfold JS.Math_min. case_decide; apply Qcle_refl.
  - destruct i as [|i]; cbn [take sum foldr]; fold (sum l).
    + unfold JS.Math_min. case_decide; [apply Qcle_refl|].
      apply Qclt_le_weak. by apply Qcnot_le_lt.
    + fold (sum (take i l)). destruct (decide (0 ≤ d)) as [Hpos|Hneg].
      * specialize (IH i). unfold JS.Math_min in *.
        repeat case_decide; qc_lra.
      * apply Qcnot_le_lt in Hneg.
        assert (Hall : Forall (λ e, e ≤ 0) l).
        { eapply Forall_impl; [exact Hd|]. intros e He. cbn in He. qc_lra. }
        pose proof (sum_take_nonpositive l i Hall) as Hi.
        unfold JS.Math_min. case_decide; qc_lra.
Qed.

Lemma steps_of_increments_sorted (p : Z) (aggregated : list Summary.t) :
  StronglySorted (λ a b, b ≤ a)
    (round p ∘ Summary.adjustment <$> ChartViews.steps_of aggregated).
Proof.
  eapply (StronglySorted_fmap _ (descending Summary.adjustment)).
  - intros x y Hxy. by apply round_mono.
  - apply Array_sort_sorted.
Qed.

Lemma running_total_lower_bound (p : Z) (aggregated : list Summary.t) (i : nat) :
  JS.Math_min (ChartViews.totalOriginal_of p aggregated)
    (running_total p (ChartViews.totalOriginal_of p aggregated)
       (ChartViews.steps_of aggregated))
  ≤ running_total p (ChartViews.totalOriginal_of p aggregated)
      (take i (ChartViews.steps_of aggregated)).
Proof.
  rewrite !running_total_sum by apply round_on_grid.
  rewrite fmap_take.
  pose proof (prefix_sum_lower_bound _ i (steps_of_increments_sorted p aggregated))
    as H.
  unfold JS.Math_min in *. repeat case_decide; qc_lra.
Qed.

(** X11: because the positive steps are taken before the negative ones,
    the running total rises and then falls: no bar of the waterfall
    reaches below the smaller of the start total and the end total. *)
Theorem waterfall_never_dips (theme : ThemePalette) (p : Z)
    (aggregated : list Summary.t) :
  let start := ChartViews.totalOriginal_of p aggregated in
  let finish := running_total p start (ChartViews.steps_of aggregated) in
  Forall
    (λ point,
       match point with
       | ChartViews.Step _ (lo, hi) _ _ =>
           JS.Math_min start finish ≤ lo ∧ lo ≤ hi
       | ChartViews.Total _ uv _ => JS.Math_min start finish ≤ uv
       end)
    (ChartViews.getWaterfallData_of theme p aggregated).
Proof.
  intros start finish. rewrite getWaterfallData_of_shape.
  fold start. fold finish.
  apply Forall_cons. split.
  { unfold JS.Math_min. case_decide; [apply Qcle_refl|].
    apply Qclt_le_weak. by apply Qcnot_le_lt. }
  apply Forall_app. split.
  - apply Forall_forall. intros point Hpoint.
    apply elem_of_lookup_imap in Hpoint as (i & s & -> & _).
    unfold waterfall_point. cbv zeta.
    pose proof (running_total_lower_bound p aggregated i) as Hi.
    pose proof (running_total_lower_bound p aggregated (S i)) as HSi.
    fold start in Hi, HSi. fold finish in Hi, HSi.
    destruct (Math_min_max_spec
                (running_total p start (take i (ChartViews.steps_of aggregated)))
                (running_total p start (take (S i) (ChartViews.steps_of aggregated))))
      as [(Hle & -> & ->)|(Hle & -> & ->)]; by split.
  - apply Forall_singleton. unfold JS.Math_min. case_decide; [done|].
    apply Qcle_refl.
Qed.

Lemma Array_find_NoDup (l : list Summary.t) (s : Summary.t) :
  NoDup (Summary.name <$> l) → s ∈ l →
  JS.Array_find (λ d, bool_decide (Summary.name d = Summary.name s)) l = Some s.
Proof.
  induction l as [|x l IH]; intros Hnd Hs.
  - by apply elem_of_nil in Hs.
  - rewrite fmap_cons in Hnd. apply NoDup_cons in Hnd as [Hx Hnd].
    cbn [JS.Array_find]. apply elem_of_cons in Hs as [->|Hs].
    + by rewrite bool_decide_eq_true_2.
    + rewrite bool_decide_eq_false_2; [by apply IH|].
      intros Heq. apply Hx. rewrite Heq. by apply list_elem_of_fmap_2.
Qed.

(** X12: with distinct names, every step of the waterfall has the colour
    that the treemap gives to the node of the same name: text for the
    investment, highRisk for an increase, lowRisk for a decrease. *)
Theorem waterfall_step_coloured_like_treemap (theme : ThemePalette) (p : Z)
    (aggregated : list Summary.t) :
  NoDup (Summary.name <$> aggregated) →
  Forall
    (λ point,
       match point with
       | ChartViews.Step name _ _ fill =>
           fill = ChartViews.TreemapContent_fillColor_of theme aggregated name
       | ChartViews.Total _ _ _ => True
       end)
    (ChartViews.getWaterfallData_of theme p aggregated).
Proof.
  intros Hnd. rewrite getWaterfallData_of_shape.
  apply Forall_cons. split; [done|]. apply Forall_app. split; [|by apply Forall_singleton].
  apply Forall_forall. intros point Hpoint.
  apply elem_of_lookup_imap in Hpoint as (i & s & -> & Hs).
  apply list_elem_of_lookup_2 in Hs.
  unfold ChartViews.steps_of in Hs. rewrite Array_sort_Permutation in Hs.
  apply list_elem_of_filter in Hs as [Hadj Hs].
  unfold waterfall_point, step_fill, ChartViews.TreemapContent_fillColor_of.
  cbv zeta. rewrite Array_find_NoDup by done.
  destruct (decide (Summary.name s = "Nieuwe Investering")); [done|].
  destruct (decide (0 < Summary.adjustment s)) as [|Hnpos]; [done|].
  rewrite decide_True; [done|].
  apply Qcnot_le_lt. intros Hle. apply Hnpos.
  apply Qcle_lt_or_eq in Hle as [?|Heq]; [done|]. by destruct Hadj.
Qed.

Lemma waterfall_step_coloured_like_treemap_witness :
  NoDup (Summary.name <$> example_summaries) ∧
  Forall
    (λ point,
       match point with
       | ChartViews.Step name _ _ fill =>
           fill = ChartViews.TreemapContent_fillColor_of example_theme
                    example_summaries name
       | ChartViews.Total _ _ _ => True
       end)
    (ChartViews.getWaterfallData_of example_theme 2 example_summaries).
Proof.
  assert (Hnd : NoDup (Summary.name <$> example_summaries)) by compute_done.
  exact (conj Hnd
           (waterfall_step_coloured_like_treemap example_theme 2
              example_summaries Hnd)).
Defined.

(** X13: when no summary has an adjustment the waterfall has no steps:
    just the start total and an end total of the same value; and a
    waterfall of two points arises in no other way. *)
Theorem waterfall_without_changes (theme : ThemePalette) (p : Z)
    (aggregated : list Summary.t) :
  (Forall (λ d, Summary.adjustment d = 0) aggregated →
   ChartViews.getWaterfallData_of theme p aggregated
   = [ ChartViews.Total "Start (Origineel)"
         (ChartViews.totalOriginal_of p aggregated) "#94a3b8";
       ChartViews.Total "Eind (Nieuw)"
         (ChartViews.totalOriginal_of p aggregated) (primary theme) ]) ∧
  (length (ChartViews.getWaterfallData_of theme p aggregated) = 2%nat →
   Forall (λ d, Summary.adjustment d = 0) aggregated).
Proof.
  rewrite getWaterfallData_of_shape. split.
  - intros Hall.
    assert (Hsteps : ChartViews.steps_of aggregated = []).
    { unfold ChartViews.steps_of. apply Permutation_nil_r.
      rewrite Array_sort_Permutation. clear theme p.
      induction Hall as [|d l Hd _ IH]; [done|].
      by rewrite filter_cons_False by (intros H; by apply H). }
    by rewrite Hsteps.
  - cbn [length]. rewrite length_app, length_imap. cbn [length].
    intros Hlen.
    assert (Hsteps : ChartViews.steps_of aggregated = [])
      by (apply nil_length_inv; lia).
    apply Forall_forall. intros d Hd.
    destruct (decide (Summary.adjustment d = 0)) as [|Hne]; [done|].
    assert (Hin : d ∈ ChartViews.steps_of aggregated).
    { unfold ChartViews.steps_of. rewrite Array_sort_Permutation.
      by apply list_elem_of_filter. }
    rewrite Hsteps in Hin. by apply elem_of_nil in Hin.
Qed.

Lemma waterfall_without_changes_witness :
  (Forall (λ d, Summary.adjustment d = 0) [summary_B] ∧
   ChartViews.getWaterfallData_of example_theme 2 [summary_B]
   = [ ChartViews.Total "Start (Origineel)"
         (ChartViews.totalOriginal_of 2 [summary_B]) "#94a3b8";
       ChartViews.Total "Eind (Nieuw)"
         (ChartViews.totalOriginal_of 2 [summary_B]) (primary example_theme) ]) ∧
  (length (ChartViews.getWaterfallData_of example_theme 2 [summary_B]) = 2%nat ∧
   Forall (λ d, Summary.adjustment d = 0) [summary_B]).
Proof.
  assert (H : Forall (λ d, Summary.adjustment d = 0) [summary_B])
    by (repeat constructor; compute_done).
  assert (Hlen : length (ChartViews.getWaterfallData_of example_theme 2
                           [summary_B]) = 2%nat) by compute_done.
  destruct (waterfall_without_changes example_theme 2 [summary_B]) as [H1 H2].
  exact (conj (conj H (H1 H)) (conj Hlen (H2 Hlen))).
Defined.

(** ** Colours of the stacked bars *)

(** X14: [getCategoryColor] never yields [undefined] for an array
    index: it is the text colour for the investment and an entry of the
    palette otherwise; the palette repeats after eight categories; so
    every stacked bar gets a colour. *)
Theorem getCategoryColor_defined_and_periodic (theme : ThemePalette)
    (name : string) (index : nat) (aggregated : list Summary.t) :
  (∃ colour, ChartViews.getCategoryColor theme name index = Some colour ∧
             (colour = text theme ∨ colour ∈ ChartViews.palette theme)) ∧
  ChartViews.getCategoryColor theme name (index + 8)
    = ChartViews.getCategoryColor theme name index ∧
  length (ChartViews.stackedBarFills_of theme aggregated) = length aggregated ∧
  Forall is_Some (ChartViews.stackedBarFills_of theme aggregated).
Proof.
  assert (Hdef : ∀ n i, ∃ colour,
             ChartViews.getCategoryColor theme n i = Some colour ∧
             (colour = text theme ∨ colour ∈ ChartViews.palette theme)).
  { intros n i. unfold ChartViews.getCategoryColor.
    destruct (decide (n = "Nieuwe Investering")); [by eauto|].
    destruct (lookup_lt_is_Some_2 (ChartViews.palette theme)
                (i mod length (ChartViews.palette theme))) as [c Hc].
    { apply Nat.mod_upper_bound. done. }
    exists c. split; [done|]. right. by eapply list_elem_of_lookup_2. }
  split_and!.
  - apply Hdef.
  - unfold ChartViews.getCategoryColor. case_decide; [done|].
    f_equal. change (length (ChartViews.palette theme)) with 8%nat.
    change 8%nat with (1 * 8)%nat at 1. by rewrite Nat.Div0.mod_add.
  - apply length_imap.
  - apply Forall_forall. intros c Hc.
    apply elem_of_lookup_imap in Hc as (i & s & -> & _).
    destruct (Hdef (Summary.name s) i) as (colour & -> & _). by eexists.
Qed.

(** ** Keys of the stacked rows *)

Lemma stacked_row_keys (val : Summary.t → Qc) (l : list Summary.t)
    (row : gmap string ChartViews.JSValue) (k : string) :
  is_Some (stacked_row val l row !! k) →
  is_Some (row !! k) ∨ k ∈ Summary.name <$> l.
Proof.
  revert row. induction l as [|item l IH]; intros row Hk; [by left|].
  rewrite stacked_row_cons in Hk. apply IH in Hk as [Hk|Hk].
  - destruct (decide (0 < val item)); [|by left].
    unfold JS.Object_set in Hk. case_decide; [by left|].
    rewrite lookup_insert in Hk. case_decide as Heq; [|by left].
    right. rewrite fmap_cons, <- Heq. by left.
  - right. rewrite fmap_cons. by right.
Qed.

(** X15: the keys of the two stacked rows are category names, apart
    from the key "name" that holds the row label; the label is "Origineel
    Budget" and "Nieuw Budget" unless a category is itself called
    "name". *)
Theorem stacked_rows_keys_and_labels (aggregated : list Summary.t) :
  (∀ k, is_Some ((ChartViews.getStackedData_of aggregated).1 !! k) →
        k = "name" ∨ k ∈ Summary.name <$> aggregated) ∧
  (∀ k, is_Some ((ChartViews.getStackedData_of aggregated).2 !! k) →
        k = "name" ∨ k ∈ Summary.name <$> aggregated) ∧
  ("name" ∉ Summary.name <$> aggregated →
   (ChartViews.getStackedData_of aggregated).1 !! "name"
     = Some (ChartViews.VStr "Origineel Budget") ∧
   (ChartViews.getStackedData_of aggregated).2 !! "name"
     = Some (ChartViews.VStr "Nieuw Budget")).
Proof.
  unfold ChartViews.getStackedData_of. rewrite getStackedData_rows.
  cbn [fst snd]. split_and!.
  - intros k Hk. apply stacked_row_keys in Hk as [Hk|Hk]; [|by right].
    left. rewrite lookup_singleton in Hk. case_decide; [done|].
    by destruct Hk.
  - intros k Hk. apply stacked_row_keys in Hk as [Hk|Hk]; [|by right].
    left. rewrite lookup_singleton in Hk. case_decide; [done|].
    by destruct Hk.
  - intros Hfresh. rewrite !stacked_row_lookup_other by done.
    by rewrite !lookup_singleton_eq.
Qed.

Lemma stacked_rows_keys_and_labels_witness :
  ("name" ∉ Summary.name <$> example_summaries) ∧
  (ChartViews.getStackedData_of example_summaries).1 !! "name"
    = Some (ChartViews.VStr "Origineel Budget") ∧
  (ChartViews.getStackedData_of example_summaries).2 !! "name"
    = Some (ChartViews.VStr "Nieuw Budget").
Proof.
  assert (H : "name" ∉ Summary.name <$> example_summaries) by compute_done.
  destruct (stacked_rows_keys_and_labels example_summaries) as (_ & _ & Hl).
  exact (conj H (Hl H)).
Defined.

(** ** The delta chart *)

Lemma deltaData_of_nil_iff (aggregated : list Summary.t) :
  Charts.deltaData_of aggregated = [] ↔
  Forall (λ d, Summary.adjustment d = 0) aggregated.
Proof.
  unfold Charts.deltaData_of. rewrite <- Permutation_nil_r, Array_sort_Permutation,
    Permutation_nil_r.
  induction aggregated as [|d l IH]; [done|].
  rewrite Forall_cons, <- IH.
  destruct (decide (0 < JS.Math_abs (Summary.adjustment d))) as [Hpos|Hz].
  - rewrite filter_cons_True by done. apply Math_abs_pos in Hpos. split; [done|].
    by intros [? _].
  - rewrite filter_cons_False by done. split; [|by intros [_ ?]].
    intros Hl. split; [|done].
    destruct (decide (Summary.adjustment d = 0)) as [|Hne]; [done|].
    by apply Math_abs_pos in Hne.
Qed.

(** X16: the delta chart is never handed an empty data array: it gets
    the rows of [deltaData], or the placeholder row when there are none.
    The placeholder is used, and in delta view the "no shifts yet"
    overlay shown, exactly when every aggregated adjustment is zero; the
    overlay never shows in totals view. *)
Theorem delta_chart_placeholder (aggregated : list Summary.t)
    (viewMode : Charts.ViewMode) :
  Charts.deltaChartData_of (Charts.deltaData_of aggregated) ≠ [] ∧
  (Charts.deltaChartData_of (Charts.deltaData_of aggregated)
     = [Charts.Placeholder "Geen wijzigingen" 0]
   ↔ Forall (λ d, Summary.adjustment d = 0) aggregated) ∧
  (Charts.noShiftsOverlay_of viewMode (Charts.deltaData_of aggregated) = true
   ↔ viewMode = Charts.deltas ∧
     Forall (λ d, Summary.adjustment d = 0) aggregated).
Proof.
  rewrite <- deltaData_of_nil_iff. unfold Charts.deltaChartData_of.
  destruct (Charts.deltaData_of aggregated) as [|d dd] eqn:Hdd.
  - split_and!; [done|done|].
    destruct viewMode; cbn; [split; [done|by intros [? _]]|done].
  - rewrite decide_True by (cbn; lia). split_and!; [done|done|].
    destruct viewMode; cbn; [split; [done|by intros [? _]]|].
    split; [done|by intros [_ ?]].
Qed.

Lemma delta_chart_placeholder_witness :
  Forall (λ d, Summary.adjustment d = 0) [summary_B] ∧
  Charts.deltaChartData_of (Charts.deltaData_of [summary_B])
    = [Charts.Placeholder "Geen wijzigingen" 0] ∧
  Charts.noShiftsOverlay_of Charts.deltas (Charts.deltaData_of [summary_B]) = true.
Proof.
  assert (H : Forall (λ d, Summary.adjustment d = 0) [summary_B])
    by (repeat constructor; compute_done).
  destruct (delta_chart_placeholder [summary_B] Charts.deltas) as (_ & H1 & H2).
  exact (conj H (conj (proj2 H1 H) (proj2 H2 (conj eq_refl H)))).
Defined.

(** X17: the cells of the delta chart carry the sign of the shift: a
    cell is filled with the primary colour when its adjustment is
    positive and with the highRisk colour when it is negative; no cell
    stands for a zero adjustment. *)
Theorem delta_cell_fill_is_sign (theme : ThemePalette)
    (aggregated : list Summary.t) :
  Forall2
    (λ d fill,
       (0 < Summary.adjustment d ∧ fill = primary theme) ∨
       (Summary.adjustment d < 0 ∧ fill = highRisk theme))
    (Charts.deltaData_of aggregated)
    (Charts.deltaCellFills_of theme (Charts.deltaData_of aggregated)).
Proof.
  unfold Charts.deltaCellFills_of. apply Forall2_fmap_r, Forall_Forall2_diag.
  apply Forall_forall. intros d Hd.
  unfold Charts.deltaData_of in Hd. rewrite Array_sort_Permutation in Hd.
  apply list_elem_of_filter in Hd as [Hd _]. apply Math_abs_pos in Hd.
  unfold compose. cbv beta.
  destruct (decide (0 < Summary.adjustment d)) as [|Hnpos]; [by left|].
  right. split; [|done]. apply Qcnot_le_lt. intros Hle. apply Hnpos.
  apply Qcle_lt_or_eq in Hle as [?|Heq]; [done|]. by destruct Hd.
Qed.

(** ** More on the axis formatter *)


Lemma Qc_pos_not_neg (x : Qc) : 0 < x → ¬ x < 0.
Proof. intros H H'. qc_lra. Qed.

Lemma Qc_pos_nonzero (x : Qc) : 0 < x → x ≠ 0.
Proof. intros H ->. by apply Qclt_not_eq in H. Qed.

Lemma Math_abs_of_pos (x : Qc) : 0 < x → JS.Math_abs x = x.
Proof.
  intros H. unfold JS.Math_abs. by rewrite decide_False by by apply Qc_pos_not_neg.
Qed.




Lemma Qcdiv_pos_Z (x : Qc) (n : Z) : (0 < n)%Z → 0 < x → 0 < x / Qc_of_Z n.
Proof.
  intros Hn Hx. unfold Qcdiv. apply Qcmult_pos_pos; [done|].
  apply Qcinv_pos. unfold Qclt. rewrite this_of_Z.
  change (this 0) with (inject_Z 0). by rewrite <- Zlt_Qlt.
Qed.




Lemma this_div_pos (x : Qc) (n : positive) :
  (this (x / Qc_of_Z (Zpos n)) == this x * (1 # n))%Q.
Proof. rewrite this_div, this_of_Z. reflexivity. Qed.

Lemma this_pow10_0 : (this (JS.pow10 0) == 1)%Q.
Proof. reflexivity. Qed.

Lemma pow10_21_large (x : Qc) : x < Qc_of_Z 1000000 → ¬ JS.pow10 21 ≤ x.
Proof.
  intros Hx Hle. assert (H : Qc_of_Z 1000000 < JS.pow10 21) by compute_done.
  apply (Qclt_not_le _ _ H). apply Qclt_le_weak.
  eapply Qcle_lt_trans; [exact Hle|exact Hx].
Qed.

(** X19: just below one million the "k" branch rounds up to a four-digit
    figure: every value from 999500 up to, but not including, 1000000 is
    shown as "1000k" (the "M" branch starts at 1000000 itself). *)
Theorem formatValue_just_below_a_million (v : Qc) :
  Qc_of_Z 999500 ≤ v → v < Qc_of_Z 1000000 → formatValue false v = "1000k".
Proof.
  intros Hlo Hhi.
  assert (Hpos : 0 < v).
  { eapply Qclt_le_trans; [|exact Hlo]. compute_done. }
  unfold formatValue.
  rewrite decide_False by by apply Qc_pos_nonzero.
  rewrite Math_abs_of_pos by done.
  rewrite decide_False by by apply Qclt_not_le.
  rewrite decide_True.
  2:{ etrans; [|exact Hlo]. compute_done. }
  unfold JS.toFixed. cbv zeta.
  assert (Hq : 0 < v / Qc_of_Z 1000) by (by apply Qcdiv_pos_Z).
  rewrite !(decide_False (P := v / Qc_of_Z 1000 < 0)) by by apply Qc_pos_not_neg.
  rewrite decide_False.
  2:{ apply pow10_21_large. etrans; [|exact Hhi].
      unfold Qclt in *. rewrite this_div_pos, ?this_of_Z in *.
      unfold inject_Z in *. change (this 0) with 0%Q in *. lra. }
  assert (Hint : JS.fixed_int 0 (v / Qc_of_Z 1000) = 1000%Z).
  { unfold JS.fixed_int. apply Qfloor_unique.
    - unfold Qcle, Qclt in *.
      rewrite this_mult, this_div_pos, this_pow10_0, ?this_of_Z in *.
      unfold inject_Z in *. change (this 0) with 0%Q in *. lra.
    - change (1000 + 1)%Z with 1001%Z. unfold Qcle, Qclt in *.
      rewrite this_mult, this_div_pos, this_pow10_0, ?this_of_Z in *.
      unfold inject_Z in *. change (this 0) with 0%Q in *. lra. }
  rewrite Hint. reflexivity.
Qed.

Lemma formatValue_just_below_a_million_witness :
  Qc_of_Z 999500 ≤ Qc_of_Z 999700 ∧ Qc_of_Z 999700 < Qc_of_Z 1000000 ∧
  formatValue false (Qc_of_Z 999700) = "1000k".
Proof.
  assert (H1 : Qc_of_Z 999500 ≤ Qc_of_Z 999700) by compute_done.
  assert (H2 : Qc_of_Z 999700 < Qc_of_Z 1000000) by compute_done.
  exact (conj H1 (conj H2 (formatValue_just_below_a_million _ H1 H2))).
Defined.

(** X20: in thousands mode a non-zero amount below 50 is shown as
    "0.0k": it differs from the "0" of an amount of zero, but shows no
    magnitude. *)
Theorem formatValue_thousands_small (v : Qc) :
  0 < v → v < Qc_of_Z 50 → formatValue true v = "0.0k".
Proof.
  intros Hpos Hhi. unfold formatValue.
  rewrite decide_False by by apply Qc_pos_nonzero.
  unfold JS.toFixed. cbv zeta.
  assert (Hq : 0 < v / Qc_of_Z 1000) by (by apply Qcdiv_pos_Z).
  rewrite !(decide_False (P := v / Qc_of_Z 1000 < 0)) by by apply Qc_pos_not_neg.
  rewrite decide_False.
  2:{ apply pow10_21_large.
      unfold Qclt in *. rewrite this_div_pos, ?this_of_Z in *.
      unfold inject_Z in *. change (this 0) with 0%Q in *. lra. }
  assert (Hint : JS.fixed_int 1 (v / Qc_of_Z 1000) = 0%Z).
  { assert (H10 : (this (JS.pow10 (Z.of_nat 1)) == 10)%Q) by reflexivity.
    unfold JS.fixed_int. apply Qfloor_unique.
    - unfold Qcle, Qclt in *.
      rewrite this_mult, this_div_pos, H10, ?this_of_Z in *.
      unfold inject_Z in *. change (this 0) with 0%Q in *. lra.
    - change (0 + 1)%Z with 1%Z. unfold Qcle, Qclt in *.
      rewrite this_mult, this_div_pos, H10, ?this_of_Z in *.
      unfold inject_Z in *. change (this 0) with 0%Q in *. lra. }
  rewrite Hint. reflexivity.
Qed.

Lemma formatValue_thousands_small_witness :
  0 < Qc_of_Z 49 ∧ Qc_of_Z 49 < Qc_of_Z 50 ∧
  formatValue true (Qc_of_Z 49) = "0.0k".
Proof.
  assert (H1 : 0 < Qc_of_Z 49) by compute_done.
  assert (H2 : Qc_of_Z 49 < Qc_of_Z 50) by compute_done.
  exact (conj H1 (conj H2 (formatValue_thousands_small _ H1 H2))).
Defined.

Lemma this_pow10_21 : (this (JS.pow10 21) == inject_Z (10 ^ 21))%Q.
Proof. vm_compute. reflexivity. Qed.

(** [toFixed(0)] of a whole number below [10^21] is its decimal string. *)
Lemma toFixed_0_integer (k : Z) :
  (0 ≤ k < 10 ^ 21)%Z → JS.toFixed 0 (Qc_of_Z k) = pretty k.
Proof.
  intros [Hlo Hhi]. unfold JS.toFixed. cbv zeta.
  assert (Hnneg : ¬ Qc_of_Z k < 0).
  { unfold Qclt. rewrite this_of_Z. change (this 0) with (inject_Z 0).
    rewrite <- Zlt_Qlt. lia. }
  rewrite !(decide_False (P := Qc_of_Z k < 0)) by done.
  rewrite decide_False.
  2:{ unfold Qcle. rewrite this_pow10_21, this_of_Z, <- Zle_Qle. lia. }
  assert (Hint : JS.fixed_int 0 (Qc_of_Z k) = k).
  { unfold JS.fixed_int. apply Qfloor_unique.
    - rewrite this_mult, this_pow10_0, this_of_Z. lra.
    - rewrite this_mult, this_pow10_0, this_of_Z, inject_Z_plus.
      change (inject_Z 1) with 1%Q. lra. }
  rewrite Hint. cbn [JS.fixed_digits]. by rewrite pretty_Z_to_N.
Qed.



(** X22: without the thousands flag a whole number of thousands, from
    1000 up to 999000, is shown as that number followed by "k". *)
Theorem formatValue_whole_thousands (k : Z) :
  (1 ≤ k < 1000)%Z → formatValue false (Qc_of_Z (1000 * k)) = pretty k +:+ "k".
Proof.
  intros Hk.
  assert (Hpos : 0 < Qc_of_Z (1000 * k)).
  { unfold Qclt. rewrite this_of_Z. change (this 0) with (inject_Z 0).
    rewrite <- Zlt_Qlt. lia. }
  unfold formatValue.
  rewrite decide_False by by apply Qc_pos_nonzero.
  rewrite Math_abs_of_pos by done.
  rewrite decide_False.
  2:{ unfold Qcle. rewrite !this_of_Z, <- Zle_Qle. lia. }
  rewrite decide_True.
  2:{ unfold Qcle. rewrite !this_of_Z, <- Zle_Qle. lia. }
  replace (Qc_of_Z (1000 * k) / Qc_of_Z 1000) with (Qc_of_Z k).
  - rewrite toFixed_0_integer; [done|lia].
  - apply Qc_is_canon. rewrite this_div_pos, !this_of_Z, inject_Z_mult.
    change (inject_Z 1000) with (1000 # 1)%Q. field.
Qed.

Lemma formatValue_whole_thousands_witness :
  (1 ≤ 250 < 1000)%Z ∧ formatValue false (Qc_of_Z (1000 * 250)) = "250k".
Proof.
  assert (H : (1 ≤ 250 < 1000)%Z) by lia.
  exact (conj H (formatValue_whole_thousands 250 H)).
Defined.

(** ** One summary per category *)

Lemma first_seen_length (l : list string) : (length (first_seen l) ≤ length l)%nat.
Proof.
  induction l as [|c l IH]; [done|]. cbn [first_seen length].
  pose proof (length_filter (λ c', c' ≠ c) (first_seen l)). lia.
Qed.

(** X23: the reduce yields exactly one summary per category: the names
    of the summaries are pairwise distinct, they are the categories of
    the lines, and there are no more summaries than lines; no lines give
    no summaries. *)
Theorem one_summary_per_category (data : list BudgetLine.t) (p : Z) :
  NoDup (Summary.name <$> Charts.aggregatedData data p) ∧
  (∀ c, c ∈ Summary.name <$> Charts.aggregatedData data p
        ↔ c ∈ BudgetLine.category <$> data) ∧
  (length (Charts.aggregatedData data p) ≤ length data)%nat ∧
  (Charts.aggregatedData data p = [] ↔ data = []).
Proof.
  unfold Charts.aggregatedData.
  assert (Hlen : length (aggregate p data)
                 = length (first_seen (BudgetLine.category <$> data)))
    by (by rewrite <- (aggregate_names data p), length_fmap).
  split_and!.
  - rewrite aggregate_names. apply NoDup_first_seen.
  - intros c. rewrite aggregate_names. apply elem_of_first_seen.
  - rewrite Hlen. etrans; [apply first_seen_length|]. by rewrite length_fmap.
  - split; [|by intros ->].
    intros Hnil. destruct data as [|x l]; [done|].
    rewrite Hnil in Hlen. cbn in Hlen. lia.
Qed.

(** X24: apart from the synthetic entry the same holds for the derived
    list of the second component: when no line uses the category
    "Nieuwe Investering" its names are pairwise distinct, and they are
    the categories of the lines together with "Nieuwe Investering" exactly
    when the investment is positive. *)
Theorem derived_names_without_clash (data : list BudgetLine.t) (p : Z)
    (newInvestment : option Qc) :
  "Nieuwe Investering" ∉ BudgetLine.category <$> data →
  NoDup (Summary.name <$> ChartViews.aggregatedData data p newInvestment) ∧
  ∀ c, c ∈ Summary.name <$> ChartViews.aggregatedData data p newInvestment
       ↔ c ∈ BudgetLine.category <$> data
         ∨ (c = "Nieuwe Investering" ∧ 0 < default 0 newInvestment).
Proof.
  intros Hfresh. split; [by apply aggregatedData_names_NoDup|].
  intros c. unfold ChartViews.aggregatedData.
  rewrite Array_sort_Permutation.
  unfold ChartViews.inject_investment, ChartViews.investment.
  destruct (decide (0 < default 0 newInvestment)) as [Hpos|Hnpos].
  - rewrite bool_decide_eq_true_2 by (by apply Qc_pos_nonzero).
    rewrite bool_decide_eq_true_2 by done. cbn [andb].
    rewrite fmap_app, elem_of_app, aggregate_names, elem_of_first_seen.
    change (Summary.name <$> [?s]) with [Summary.name s]. cbn [Summary.name].
    rewrite list_elem_of_singleton. tauto.
  - rewrite (bool_decide_eq_false_2 (0 < _)) by done. rewrite andb_false_r.
    rewrite aggregate_names, elem_of_first_seen. tauto.
Qed.

Lemma derived_names_without_clash_witness :
  ("Nieuwe Investering" ∉ BudgetLine.category <$> example_lines) ∧
  NoDup (Summary.name <$>
           ChartViews.aggregatedData example_lines 2 (Some (Qc_of_Z 50))).
Proof.
  assert (H : "Nieuwe Investering" ∉ BudgetLine.category <$> example_lines)
    by compute_done.
  exact (conj H (proj1 (derived_names_without_clash example_lines 2
                          (Some (Qc_of_Z 50)) H))).
Defined.

(** X25: adding a line touches one category only: the summaries of the
    other categories are carried over unchanged, in their places, and
    the line's category is appended at the end when it is new. *)
Theorem aggregate_append_line (data : list BudgetLine.t) (x : BudgetLine.t)
    (p : Z) :
  Summary.name <$> aggregate p (data ++ [x])
    = (Summary.name <$> aggregate p data)
      ++ (if decide (BudgetLine.category x ∈ BudgetLine.category <$> data)
          then [] else [BudgetLine.category x]) ∧
  ∀ i s, aggregate p data !! i = Some s →
         Summary.name s ≠ BudgetLine.category x →
         aggregate p (data ++ [x]) !! i = Some s.
Proof.
  split.
  - rewrite !aggregate_names, fmap_app.
    change (BudgetLine.category <$> [x]) with [BudgetLine.category x].
    rewrite first_seen_snoc. case_decide; [by rewrite app_nil_r|done].
  - intros i s Hi Hne. rewrite !aggregate_is_spec in *. unfold aggregate_spec in *.
    rewrite fmap_app.
    change (BudgetLine.category <$> [x]) with [BudgetLine.category x].
    rewrite first_seen_snoc.
    rewrite list_lookup_fmap in Hi.
    destruct (first_seen (BudgetLine.category <$> data) !! i) as [c|] eqn:Hc;
      [|done].
    cbn in Hi. injection Hi as <-. cbn [Summary.name summary_of] in Hne.
    assert (Hgoal : (summary_of p (data ++ [x]) <$>
                       first_seen (BudgetLine.category <$> data)) !! i
                    = Some (summary_of p data c)).
    { rewrite list_lookup_fmap, Hc. cbn. f_equal.
      by apply summary_of_snoc_other. }
    case_decide; [exact Hgoal|].
    rewrite fmap_app, lookup_app_l; [exact Hgoal|].
    rewrite length_fmap. by eapply lookup_lt_Some.
Qed.

Lemma aggregate_append_line_witness :
  aggregate 2 [line_B; line_A1] !! 0%nat = Some summary_B ∧
  Summary.name summary_B ≠ BudgetLine.category line_A2 ∧
  aggregate 2 ([line_B; line_A1] ++ [line_A2]) !! 0%nat = Some summary_B.
Proof.
  assert (H1 : aggregate 2 [line_B; line_A1] !! 0%nat = Some summary_B)
    by compute_done.
  assert (H2 : Summary.name summary_B ≠ BudgetLine.category line_A2)
    by compute_done.
  exact (conj H1 (conj H2
           (proj2 (aggregate_append_line [line_B; line_A1] line_A2 2)
              0%nat summary_B H1 H2))).
Defined.

(** X26: with distinct names the tooltip of a treemap node shows the
    summary of that very node: looking the node's name up in the derived
    list finds the node's own summary. *)
Theorem treemap_tooltip_finds_node (aggregated : list Summary.t) :
  NoDup (Summary.name <$> aggregated) →
  Forall
    (λ n, ChartViews.tooltipItem_of aggregated (Summary.name (ChartViews.node n))
          = Some (ChartViews.node n))
    (ChartViews.treemapData_of aggregated).
Proof.
  intros Hnd. unfold ChartViews.treemapData_of.
  apply Forall_fmap, Forall_forall. intros d Hd.
  apply list_elem_of_filter in Hd as [_ Hd]. cbn.
  unfold ChartViews.tooltipItem_of. by apply Array_find_NoDup.
Qed.

Lemma treemap_tooltip_finds_node_witness :
  NoDup (Summary.name <$> example_summaries) ∧
  Forall
    (λ n, ChartViews.tooltipItem_of example_summaries
            (Summary.name (ChartViews.node n))
          = Some (ChartViews.node n))
    (ChartViews.treemapData_of example_summaries).
Proof.
  assert (H : NoDup (Summary.name <$> example_summaries)) by compute_done.
  exact (conj H (treemap_tooltip_finds_node example_summaries H)).
Defined.
